(** * Let It Ride EV calculator (src/App.jsx)

    A shallow embedding of the hand classifier [classify5] and of the
    enumeration engine [computeEV], with the JavaScript built-ins they use
    (string indexing, [Array.prototype.indexOf], [Array.prototype.sort],
    [Set], own-property enumeration of a plain object, IEEE-754 division).

    Conventions.
    - A card is the two-character string of the source (["Ah"], ["Td"]).
      A one-character JavaScript string is an [ascii]; [c[i]] is
      [String.get i c], with [None] for [undefined].
    - Integer-valued JavaScript numbers (indices, counters, payouts) are [Z];
      the two quotients [evSum / total] and [counts[c] / total] are binary64
      values, modelled by the Standard Library's [spec_float] with
      [prec = 53] and [emax = 1024].
    - The category tags are the constructors of [Category]. *)

From Stdlib Require Import String Ascii List ZArith Bool Lia.
From Stdlib Require Import Permutation QArith Qabs SpecFloat.
From Stdlib Require Import DecimalString DecimalPos DecimalN DecimalZ Sorted.
Import ListNotations.

Local Open Scope Z_scope.

(* ------------------------------------------------------------------ *)
(** ** JavaScript built-ins *)

Module JS.

(** [c[i]] on a string: the character at [i], or [undefined]. *)
Definition char_at (c : string) (i : nat) : option ascii := String.get i c.

(** A value of type [string | undefined] is falsy when it is the empty
    string: [!c]. *)
Definition falsy (c : string) : bool :=
  match c with EmptyString => true | String _ _ => false end.

Definition ascii_eqb := Ascii.eqb.

Definition opt_eqb {A} (eqb : A -> A -> bool) (x y : option A) : bool :=
  match x, y with
  | Some a, Some b => eqb a b
  | None, None => true
  | _, _ => false
  end.

(** [Array.prototype.includes] / [Set.prototype.has]. *)
Definition includes {A} (eqb : A -> A -> bool) (l : list A) (x : A) : bool :=
  existsb (eqb x) l.

(** [Array.prototype.indexOf]: first index holding [x], or [-1]. *)
Fixpoint indexOf_from {A} (eqb : A -> A -> bool) (l : list A) (x : A) (i : Z) : Z :=
  match l with
  | [] => -1
  | y :: l' => if eqb x y then i else indexOf_from eqb l' x (i + 1)
  end.

Definition indexOf {A} (eqb : A -> A -> bool) (l : list A) (x : A) : Z :=
  indexOf_from eqb l x 0.

(** [Array.prototype.find]. *)
Definition find {A} (p : A -> bool) (l : list A) : option A := List.find p l.

(** [new Set(l)]: the distinct elements of [l], in first-insertion order. *)
Definition set_add {A} (eqb : A -> A -> bool) (s : list A) (x : A) : list A :=
  if includes eqb s x then s else s ++ [x].

Definition mkSet {A} (eqb : A -> A -> bool) (l : list A) : list A :=
  fold_left (set_add eqb) l [].

Definition size {A} (s : list A) : Z := Z.of_nat (length s).

(** [Array.prototype.sort(cmp)]: a stable sort by the comparator's sign. *)
Fixpoint insert {A} (cmp : A -> A -> Z) (x : A) (l : list A) : list A :=
  match l with
  | [] => [x]
  | y :: l' => if cmp x y <=? 0 then x :: y :: l' else y :: insert cmp x l'
  end.

Definition sort {A} (cmp : A -> A -> Z) (l : list A) : list A :=
  fold_right (insert cmp) [] l.

(** [l[i] === v] for a list of numbers: false when [l[i]] is [undefined]. *)
Definition at_is (l : list Z) (i : nat) (v : Z) : bool :=
  match nth_error l i with
  | Some x => x =? v
  | None => false
  end.

(** *** Plain objects keyed by a rank character

    The keys of [counts] in [classify5] are the values [c[0]]: a
    one-character string, or [undefined], which as a property name is the
    string ["undefined"].  A key is thus an [option ascii].  The object is
    kept in insertion order; own-property enumeration lists the integer-like
    keys (the single digits) in ascending order first and the other keys in
    insertion order after them. *)
Definition key := option ascii.
Definition key_eqb : key -> key -> bool := opt_eqb ascii_eqb.
Definition obj := list (key * Z).

Fixpoint get (o : obj) (k : key) : option Z :=
  match o with
  | [] => None
  | (k', v) :: o' => if key_eqb k k' then Some v else get o' k
  end.

Fixpoint put (o : obj) (k : key) (v : Z) : obj :=
  match o with
  | [] => [(k, v)]
  | (k', v') :: o' => if key_eqb k k' then (k', v) :: o' else (k', v') :: put o' k v
  end.

Definition digits : list ascii :=
  ["0"; "1"; "2"; "3"; "4"; "5"; "6"; "7"; "8"; "9"]%char.

Definition is_index_key (k : key) : bool :=
  match k with
  | Some c => includes ascii_eqb digits c
  | None => false
  end.

Definition own_keys (o : obj) : list key :=
  let ks := map fst o in
  filter (includes key_eqb ks) (map Some digits)
    ++ filter (fun k => negb (is_index_key k)) ks.

(** [Object.keys] and [Object.values]. *)
Definition keys (o : obj) : list key := own_keys o.

Definition values (o : obj) : list Z :=
  flat_map (fun k => match get o k with Some v => [v] | None => [] end) (own_keys o).

(** [o[k] || 0]. *)
Definition get_or0 (o : obj) (k : key) : Z :=
  match get o k with
  | Some v => v
  | None => 0
  end.

(** *** binary64 numbers *)
Definition number := spec_float.
Definition prec := 53.
Definition emax := 1024.

(** The double that an integer denotes (exact below 2^53). *)
Definition of_Z (n : Z) : number := binary_normalize prec emax n 0 false.

Definition div (x y : number) : number := SFdiv prec emax x y.
Definition add (x y : number) : number := SFadd prec emax x y.

End JS.

(* ------------------------------------------------------------------ *)
(** ** Constants of the module *)

Definition RANKS : list ascii :=
  ["2"; "3"; "4"; "5"; "6"; "7"; "8"; "9"; "T"; "J"; "Q"; "K"; "A"]%char.

Definition SUITS : list ascii := ["c"; "d"; "h"; "s"]%char.

(** [r + s] on two one-character strings. *)
Definition card_of (r s : ascii) : string := String r (String s EmptyString).

Definition DECK : list string :=
  flat_map (fun r => map (fun s => card_of r s) SUITS) RANKS.

Inductive Category : Type :=
| royal_flush
| straight_flush
| four_kind
| full_house
| flush
| straight
| three_kind
| two_pair
| pair_10_or_better
| nothing.

Definition PAYTABLE (c : Category) : Z :=
  match c with
  | royal_flush => 1000
  | straight_flush => 200
  | four_kind => 50
  | full_house => 11
  | flush => 8
  | straight => 5
  | three_kind => 3
  | two_pair => 2
  | pair_10_or_better => 1
  | nothing => -1
  end.

Definition CATEGORIES : list Category :=
  [ royal_flush; straight_flush; four_kind; full_house; flush;
    straight; three_kind; two_pair; pair_10_or_better; nothing ].

Definition Category_eqb (a b : Category) : bool :=
  match a, b with
  | royal_flush, royal_flush
  | straight_flush, straight_flush
  | four_kind, four_kind
  | full_house, full_house
  | flush, flush
  | straight, straight
  | three_kind, three_kind
  | two_pair, two_pair
  | pair_10_or_better, pair_10_or_better
  | nothing, nothing => true
  | _, _ => false
  end.

(* ------------------------------------------------------------------ *)
(** ** The hand classifier *)

(** [rankIndex(r)], where [r] is [c[0]]: [undefined] is not in [RANKS]. *)
Definition rankIndex (r : option ascii) : Z :=
  match r with
  | Some a => JS.indexOf JS.ascii_eqb RANKS a
  | None => -1
  end.

(** [ranks.forEach(r => counts[r] = (counts[r] || 0) + 1)]. *)
Definition tally (ranks : list JS.key) : JS.obj :=
  fold_left (fun counts r => JS.put counts r (JS.get_or0 counts r + 1)) ranks [].

Definition freqs_of (ranks : list JS.key) : list Z :=
  JS.sort (fun a b => b - a) (JS.values (tally ranks)).

Definition isFlush_of (suits : list (option ascii)) : bool :=
  JS.size (JS.mkSet (JS.opt_eqb JS.ascii_eqb) suits) =? 1.

Definition vals_of (ranks : list JS.key) : list Z :=
  JS.sort (fun a b => a - b) (map rankIndex ranks).

Definition isStraight_of (vals : list Z) : bool :=
  if (Z.of_nat (length vals) =? 5) && JS.at_is vals 0 0 && JS.at_is vals 1 1
     && JS.at_is vals 2 2 && JS.at_is vals 3 3 && JS.at_is vals 4 12
  then true
  else if (Z.of_nat (length vals) =? 5)
          && match nth_error vals 4, nth_error vals 0 with
             | Some hi, Some lo => hi - lo =? 4
             | _, _ => false
             end
          && (JS.size (JS.mkSet Z.eqb vals) =? 5)
  then true
  else false.

Definition high_ranks : list ascii := ["T"; "J"; "Q"; "K"; "A"]%char.

(** The test of line 56 on [ranksSet = new Set(ranks)]. *)
Definition isRoyal_of (ranks : list JS.key) : bool :=
  let ranksSet := JS.mkSet JS.key_eqb ranks in
  (JS.size ranksSet =? 5)
  && JS.includes JS.key_eqb ranksSet (Some "T"%char)
  && JS.includes JS.key_eqb ranksSet (Some "J"%char)
  && JS.includes JS.key_eqb ranksSet (Some "Q"%char)
  && JS.includes JS.key_eqb ranksSet (Some "K"%char)
  && JS.includes JS.key_eqb ranksSet (Some "A"%char).

(** [Object.keys(counts).find(k => counts[k] === 2)]. *)
Definition pairRank_of (counts : JS.obj) : option JS.key :=
  JS.find (fun k => match JS.get counts k with Some v => v =? 2 | None => false end)
          (JS.keys counts).

(** [["T","J","Q","K","A"].includes(pairRank)]: the key ["undefined"] and the
    value [undefined] are both outside the list. *)
Definition isHighPair (pairRank : option JS.key) : bool :=
  match pairRank with
  | Some (Some a) => JS.includes JS.ascii_eqb high_ranks a
  | _ => false
  end.

Definition classify5 (cards : list string) : Category :=
  let ranks := map (fun c => JS.char_at c 0) cards in
  let suits := map (fun c => JS.char_at c 1) cards in
  let counts := tally ranks in
  let freqs := JS.sort (fun a b => b - a) (JS.values counts) in
  let isFlush := isFlush_of suits in
  let vals := vals_of ranks in
  let isStraight := isStraight_of vals in
  if isStraight && isFlush then
    if isRoyal_of ranks then royal_flush else straight_flush
  else if JS.at_is freqs 0 4 then four_kind
  else if JS.at_is freqs 0 3 && JS.at_is freqs 1 2 then full_house
  else if isFlush then flush
  else if isStraight then straight
  else if JS.at_is freqs 0 3 then three_kind
  else if JS.at_is freqs 0 2 && JS.at_is freqs 1 2 then two_pair
  else if JS.at_is freqs 0 2 then
    if isHighPair (pairRank_of counts) then pair_10_or_better else nothing
  else nothing.

(* ------------------------------------------------------------------ *)
(** ** The enumeration engine *)

Record BreakdownRow : Type := mkRow {
  finalCard : string;
  cat : Category;
  payout : Z
}.

Record EVResult : Type := mkEV {
  ev : JS.number;
  probs : list (Category * JS.number);
  counts : list (Category * Z);
  total : Z;
  breakdown : list BreakdownRow
}.

(** The value handed to [setResult]: [{ error }] or the five-field record. *)
Inductive Result : Type :=
| ResError (error : string)
| ResOk (r : EVResult).

Definition msg_incomplete : string :=
  "Please select all 3 hole cards and the shown community card.".

Definition msg_duplicate : string :=
  "Duplicate card detected. Please choose distinct cards.".

(** The component state read and written by [computeEV]; [result] starts as
    [null]. *)
Record AppState : Type := mkState {
  cardA : string;
  cardB : string;
  cardC : string;
  board : string;
  result : option Result
}.

Definition setResult (r : Result) (st : AppState) : AppState :=
  {| cardA := cardA st; cardB := cardB st; cardC := cardC st;
     board := board st; result := Some r |}.

(** [counts[c]] on the per-category object. *)
Fixpoint count_get (o : list (Category * Z)) (c : Category) : option Z :=
  match o with
  | [] => None
  | (c', n) :: o' => if Category_eqb c c' then Some n else count_get o' c
  end.

(** [counts[cat] += 1].  Every category is a key of the object built from
    [CATEGORIES], so the entry exists and is updated in place. *)
Definition count_incr (o : list (Category * Z)) (c : Category) : list (Category * Z) :=
  map (fun e => if Category_eqb c (fst e) then (fst e, snd e + 1) else e) o.

(** The loop state: [counts], [evSum], [breakdown]. *)
Definition LoopState : Type := (list (Category * Z) * Z * list BreakdownRow)%type.

(** One iteration of [for (const finalCard of remaining)]. *)
Definition loop_body (a b c d : string) (s : LoopState) (finalCard : string) : LoopState :=
  let '(counts, evSum, breakdown) := s in
  let final5 := [a; b; c; d; finalCard] in
  let cat := classify5 final5 in
  let counts := count_incr counts cat in
  let payout := PAYTABLE cat in
  let evSum := evSum + payout in
  (counts, evSum, breakdown ++ [mkRow finalCard cat payout]).

Definition remaining_of (known : list string) : list string :=
  filter (fun c => negb (JS.includes String.eqb known c)) DECK.

(** [counts[c] / total]; [undefined / total] is [NaN]. *)
Definition prob_of (counts : list (Category * Z)) (total : Z) (c : Category) : JS.number :=
  match count_get counts c with
  | Some n => JS.div (JS.of_Z n) (JS.of_Z total)
  | None => S754_nan
  end.

Definition computeEV (st : AppState) : AppState :=
  let a := cardA st in
  let b := cardB st in
  let c := cardC st in
  let d := board st in
  if JS.falsy a || JS.falsy b || JS.falsy c || JS.falsy d then
    setResult (ResError msg_incomplete) st
  else
    let known := JS.mkSet String.eqb [a; b; c; d] in
    if JS.size known <? 4 then
      setResult (ResError msg_duplicate) st
    else
      let remaining := remaining_of known in
      let counts0 := map (fun c => (c, 0)) CATEGORIES in
      let '(counts, evSum, breakdown) :=
        fold_left (loop_body a b c d) remaining (counts0, 0, []) in
      let total := Z.of_nat (length remaining) in
      let ev := JS.div (JS.of_Z evSum) (JS.of_Z total) in
      let probs := map (fun c => (c, prob_of counts total c)) CATEGORIES in
      setResult (ResOk (mkEV ev probs counts total breakdown)) st.

(* ------------------------------------------------------------------ *)
(** ** Vocabulary of the specification *)

(** The four inputs of [computeEV], in the order the source lists them. *)
Definition inputs (st : AppState) : list string :=
  [cardA st; cardB st; cardC st; board st].

(** An input is absent when its selector still holds the empty string. *)
Definition absent (c : string) : Prop := c = EmptyString.

Definition incomplete (st : AppState) : Prop := Exists absent (inputs st).

(** The inputs that were supplied. *)
Definition supplied (st : AppState) : list string :=
  filter (fun c => negb (JS.falsy c)) (inputs st).

(** A valid request: four pairwise distinct cards of the deck. *)
Definition valid (st : AppState) : Prop :=
  Forall (fun c => In c DECK) (inputs st) /\ NoDup (inputs st).

(** A hand of the specification: five pairwise distinct cards of the deck. *)
Definition is_hand (cards : list string) : Prop :=
  length cards = 5%nat /\ NoDup cards /\ Forall (fun c => In c DECK) cards.

Definition ranks_of (cards : list string) : list JS.key :=
  map (fun c => JS.char_at c 0) cards.

Definition suits_of (cards : list string) : list (option ascii) :=
  map (fun c => JS.char_at c 1) cards.

(** The body of [classify5] once [ranks] and [isFlush] are known. *)
Definition ladder (ranks : list JS.key) (isFlush : bool) : Category :=
  let counts := tally ranks in
  let freqs := JS.sort (fun a b => b - a) (JS.values counts) in
  let vals := vals_of ranks in
  let isStraight := isStraight_of vals in
  if isStraight && isFlush then
    if isRoyal_of ranks then royal_flush else straight_flush
  else if JS.at_is freqs 0 4 then four_kind
  else if JS.at_is freqs 0 3 && JS.at_is freqs 1 2 then full_house
  else if isFlush then flush
  else if isStraight then straight
  else if JS.at_is freqs 0 3 then three_kind
  else if JS.at_is freqs 0 2 && JS.at_is freqs 1 2 then two_pair
  else if JS.at_is freqs 0 2 then
    if isHighPair (pairRank_of counts) then pair_10_or_better else nothing
  else nothing.

(** The record that [computeEV] appends for a candidate. *)
Definition row_of (a b c d finalCard : string) : BreakdownRow :=
  let cat := classify5 [a; b; c; d; finalCard] in
  mkRow finalCard cat (PAYTABLE cat).

(** [counts[c]] read as a number, and sums over the ten categories. *)
Definition count_val (o : list (Category * Z)) (c : Category) : Z :=
  match count_get o c with
  | Some n => n
  | None => 0
  end.

Definition count_of (r : EVResult) (c : Category) : Z := count_val (counts r) c.

Definition sum_over (f : Category -> Z) : Z :=
  fold_right (fun c acc => f c + acc) 0 CATEGORIES.

(** The category of the hand completed by [finalCard]. *)
Definition completion (a b c d finalCard : string) : Category :=
  classify5 [a; b; c; d; finalCard].

(** What [computeEV] stores on a valid request. *)
Definition outcome (st : AppState) : EVResult :=
  let a := cardA st in
  let b := cardB st in
  let c := cardC st in
  let d := board st in
  let pool := remaining_of (inputs st) in
  let cs := fold_left count_incr (map (completion a b c d) pool)
                      (map (fun c => (c, 0)) CATEGORIES) in
  let evSum := fold_right Z.add 0 (map (fun x => PAYTABLE (completion a b c d x)) pool) in
  let total := Z.of_nat (length pool) in
  mkEV (JS.div (JS.of_Z evSum) (JS.of_Z total))
       (map (fun c => (c, prob_of cs total c)) CATEGORIES)
       cs total (map (row_of a b c d) pool).


(** The code's two hand predicates, on a list of cards. *)
Definition is_flush (cards : list string) : bool := isFlush_of (suits_of cards).

Definition is_straight (cards : list string) : bool :=
  isStraight_of (vals_of (ranks_of cards)).

(** The rank set of a hand is exactly the set of the listed ranks. *)
Definition rank_set_is (cards : list string) (rs : list ascii) : Prop :=
  forall k : JS.key, In k (ranks_of cards) <-> In k (map Some rs).

(** All the cards show one and the same suit character. *)
Definition all_same_suit (cards : list string) : Prop :=
  exists s, Forall (fun c => JS.char_at c 1 = s) cards.

Definition wheel_ranks : list ascii := ["A"; "2"; "3"; "4"; "5"]%char.

(** How many of the listed ranks are [k]. *)
Definition occurrences (k : JS.key) (ranks : list JS.key) : nat :=
  length (filter (JS.key_eqb k) ranks).


(** All the lists of length [n] over [dom]. *)
Fixpoint tuples {A} (n : nat) (dom : list A) : list (list A) :=
  match n with
  | O => [[]]
  | S n' => flat_map (fun x => map (cons x) (tuples n' dom)) dom
  end.

(** Every listed rank occurs among [ranks]. *)
Definition covers (ranks : list JS.key) (rs : list ascii) : bool :=
  forallb (fun r => JS.includes JS.key_eqb ranks (Some r)) rs.

(** The wheel table: what the ladder answers on a rank list that covers the
    wheel, with and without a flush. *)
Definition wheel_check (ranks : list JS.key) : bool :=
  if covers ranks wheel_ranks then
    Category_eqb (ladder ranks true) straight_flush
    && Category_eqb (ladder ranks false) straight
  else true.




(* ------------------------------------------------------------------ *)
(** ** Binary64 sums of the ten probabilities *)

(** The ten [probs] values added left to right from [0], as
    [Object.values(probs).reduce((s, p) => s + p, 0)] does. *)
Definition fsum (l : list JS.number) : JS.number :=
  fold_left JS.add l (S754_zero false).

(** The rational that a finite double denotes. *)
Definition to_Q (x : JS.number) : option Q :=
  match x with
  | S754_zero _ => Some 0%Q
  | S754_finite s m e =>
      Some ((if s then inject_Z (Zneg m) else inject_Z (Zpos m)) * Qpower 2 e)%Q
  | _ => None
  end.

(** [|x - 1| <= 1e-9]. *)
Definition near_one (x : JS.number) : Prop :=
  match to_Q x with
  | Some q => (Qabs (q - 1) <= 1 # 1000000000)%Q
  | None => False
  end.

Definition near_oneb (x : JS.number) : bool :=
  match to_Q x with
  | Some q => Qle_bool (Qabs (q - 1)) (1 # 1000000000)
  | None => false
  end.

Definition number_eqb (x y : JS.number) : bool :=
  match x, y with
  | S754_zero s, S754_zero s' => Bool.eqb s s'
  | S754_infinity s, S754_infinity s' => Bool.eqb s s'
  | S754_nan, S754_nan => true
  | S754_finite s m e, S754_finite s' m' e' =>
      Bool.eqb s s' && Pos.eqb m m' && Z.eqb e e'
  | _, _ => false
  end.

(** [j / 48] as the code computes it. *)
Definition fprob (j : nat) : JS.number :=
  JS.div (JS.of_Z (Z.of_nat j)) (JS.of_Z 48).

(** Partial sums: a pair [(k, s)] records that the counts added so far make
    [k] and that their probabilities sum, in binary64, to [s]. *)
Definition partial : Type := (nat * JS.number)%type.

Definition partial_eqb (a b : partial) : bool :=
  Nat.eqb (fst a) (fst b) && number_eqb (snd a) (snd b).

Definition partial_next (tbl : list (nat * JS.number)) (p : partial) : list partial :=
  map (fun jq => (fst p + fst jq, JS.add (snd p) (snd jq))%nat)
      (filter (fun jq => (fst p + fst jq <=? 48)%nat) tbl).

Definition fprob_table : list (nat * JS.number) :=
  map (fun j => (j, fprob j)) (seq 0 49).

Definition partial_step (st : list partial) : list partial :=
  JS.mkSet partial_eqb (flat_map (partial_next fprob_table) st).

Fixpoint partial_reach (n : nat) (st : list partial) : list partial :=
  match n with
  | O => st
  | S n' => partial_reach n' (partial_step st)
  end.

(** A complete partial sum, one whose counts make 48, is within 1e-9 of 1. *)
Definition sums_to_one (p : partial) : bool :=
  if Nat.eqb (fst p) 48 then near_oneb (snd p) else true.

(** The partial sums before any category is added. *)
Definition partial_start : list partial := [(O, S754_zero false)].

(** The broadway table: a rank list that covers T, J, Q, K, A passes the
    code's straight test. *)
Definition broadway_check (ranks : list JS.key) : bool :=
  if covers ranks high_ranks then isStraight_of (vals_of ranks) else true.

(* ------------------------------------------------------------------ *)
(** ** Poker vocabulary on rank lists *)

(** How many cards of the hand have rank [r]. *)
Definition rank_count (cards : list string) (r : ascii) : nat :=
  occurrences (Some r) (ranks_of cards).

(** The multiplicity of each of the thirteen ranks, in the order of
    [RANKS]. *)
Definition profile (ranks : list JS.key) : list nat :=
  map (fun r => occurrences (Some r) ranks) RANKS.

(** Some rank occurs exactly [n] times. *)
Definition has_count (n : nat) (p : list nat) : bool := existsb (Nat.eqb n) p.

(** The number of ranks that occur exactly twice. *)
Definition pair_count (p : list nat) : nat := length (filter (Nat.eqb 2) p).

(** The rank at position [i] of [RANKS] occurs. *)
Definition held (p : list nat) (i : nat) : bool := (0 <? nth i p 0)%nat.

(** The ten straights, as positions in [RANKS]: the wheel and the nine runs
    of five neighbours. *)
Definition run_positions : list (list nat) :=
  [12; 0; 1; 2; 3]%nat :: map (fun i => seq i 5) (seq 0 9).

Definition runs : list (list ascii) :=
  map (map (fun i => nth i RANKS "2"%char)) run_positions.

Definition is_run (p : list nat) : bool := existsb (forallb (held p)) run_positions.

(** T, J, Q, K, A sit at positions 8 to 12. *)
Definition is_broadway (p : list nat) : bool := forallb (held p) (seq 8 5).

Definition has_high_pair (p : list nat) : bool :=
  existsb (fun i => (nth i p 0 =? 2)%nat) (seq 8 5).

(** The category of a five-card hand read off its rank multiplicities, its
    runs and its flush. *)
Definition shape_of (p : list nat) (isFlush : bool) : Category :=
  if is_run p && isFlush then
    if is_broadway p then royal_flush else straight_flush
  else if has_count 4 p then four_kind
  else if has_count 3 p && has_count 2 p then full_house
  else if isFlush then flush
  else if is_run p then straight
  else if has_count 3 p then three_kind
  else if (pair_count p =? 2)%nat then two_pair
  else if has_high_pair p then pair_10_or_better
  else nothing.

Definition shape (ranks : list JS.key) (isFlush : bool) : Category :=
  shape_of (profile ranks) isFlush.

(** What five cards allow: the multiplicities add up to five. *)
Definition profile_facts (p : list nat) : bool :=
  (if is_run p then negb (has_count 4 p || has_count 3 p || has_count 2 p)
   else true)
  && (if has_count 4 p then negb (has_count 3 p || has_count 2 p) else true)
  && (if has_count 3 p then (pair_count p <=? 1)%nat else true)
  && (if has_count 2 p then (1 <=? pair_count p)%nat
      else (pair_count p =? 0)%nat)
  && (pair_count p <=? 2)%nat
  && (if has_high_pair p then has_count 2 p else true).

(** One step of the histogram loop of [classify5]. *)
Definition tally_step (counts : JS.obj) (r : JS.key) : JS.obj :=
  JS.put counts r (JS.get_or0 counts r + 1).

(** The test of [classify5] for a rank that occurs twice. *)
Definition is_two (counts : JS.obj) (k : JS.key) : bool :=
  match JS.get counts k with
  | Some v => v =? 2
  | None => false
  end.

(** All the lists of [n] naturals that add up to [s]. *)
Fixpoint compositions (n s : nat) : list (list nat) :=
  match n with
  | O => if (s =? 0)%nat then [[]] else []
  | S n' => flat_map (fun k => map (cons k) (compositions n' (s - k))) (seq 0 (S s))
  end.

(** The rank list that spells out a profile: every rank of [RANKS] as often
    as the profile says. *)
Definition spell (p : list nat) : list JS.key :=
  flat_map (fun rk => repeat (Some (fst rk)) (snd rk)) (combine RANKS p).

(** The shape table, one row for each way five cards can be spread over the
    thirteen ranks: on the rank list that spells out the profile the ladder
    agrees with [shape_of], with and without a flush, and the straight test
    with [is_run]. *)
Definition shape_check (p : list nat) : bool :=
  let ranks := spell p in
  Category_eqb (ladder ranks true) (shape_of p true)
  && Category_eqb (ladder ranks false) (shape_of p false)
  && Bool.eqb (isStraight_of (vals_of ranks)) (is_run p)
  && profile_facts p.

(** Five cards of the deck, repeated or not. *)
Definition five_cards (cards : list string) : Prop :=
  length cards = 5%nat /\ Forall (fun c => In c DECK) cards.

(** The made hands, by rank multiplicity. *)
Definition quads (cards : list string) : Prop :=
  exists r, rank_count cards r = 4%nat.

Definition trips (cards : list string) : Prop :=
  exists r, rank_count cards r = 3%nat.

Definition a_pair (cards : list string) : Prop :=
  exists r, rank_count cards r = 2%nat.

Definition two_pairs (cards : list string) : Prop :=
  exists r1 r2, r1 <> r2 /\ rank_count cards r1 = 2%nat /\ rank_count cards r2 = 2%nat.

Definition high_pair (cards : list string) : Prop :=
  exists r, In r high_ranks /\ rank_count cards r = 2%nat.

(** The ranks of the hand are five neighbours, or the wheel. *)
Definition a_run (cards : list string) : Prop :=
  exists run, In run runs /\ rank_set_is cards run.

(* ------------------------------------------------------------------ *)
(** ** Accuracy of the two quotients *)

(** The integers [lo], [lo + 1], ..., [lo + n - 1]. *)
Definition Zrange (lo : Z) (n : nat) : list Z :=
  map (fun i => lo + Z.of_nat i) (seq 0 n).

(** The binary64 quotient [s / t] denotes a rational between [lo] and [hi]
    that is within [eps] of the exact quotient. *)
Definition quotient_within (lo hi eps : Q) (s t : Z) : bool :=
  match to_Q (JS.div (JS.of_Z s) (JS.of_Z t)) with
  | Some q =>
      Qle_bool lo q && Qle_bool q hi
      && Qle_bool (Qabs (q - inject_Z s / inject_Z t)) eps
  | None => false
  end.

(** A count is between [0] and [total]; the bounds are 0, 1 and 2^-54. *)
Definition prob_check (t : Z) : bool :=
  forallb (fun n => quotient_within 0 1 (1 # 18014398509481984) n t)
          (Zrange 0 (Z.to_nat (t + 1))).

(* ------------------------------------------------------------------ *)
(** ** The component around [computeEV] *)

(** The state after the five [useState] calls. *)
Definition initial : AppState := mkState "" "" "" "" None.

Definition setCardA (v : string) (st : AppState) : AppState :=
  {| cardA := v; cardB := cardB st; cardC := cardC st; board := board st;
     result := result st |}.

Definition setCardB (v : string) (st : AppState) : AppState :=
  {| cardA := cardA st; cardB := v; cardC := cardC st; board := board st;
     result := result st |}.

Definition setCardC (v : string) (st : AppState) : AppState :=
  {| cardA := cardA st; cardB := cardB st; cardC := v; board := board st;
     result := result st |}.

Definition setBoard (v : string) (st : AppState) : AppState :=
  {| cardA := cardA st; cardB := cardB st; cardC := cardC st; board := v;
     result := result st |}.

(** [setResult(null)]. *)
Definition clearResult (st : AppState) : AppState :=
  {| cardA := cardA st; cardB := cardB st; cardC := cardC st; board := board st;
     result := None |}.

(** [disabledOption(option)]. *)
Definition disabledOption (st : AppState) (opt : string) : bool :=
  JS.includes String.eqb [cardA st; cardB st; cardC st; board st] opt.

(** The handler of the Reset button. *)
Definition reset (st : AppState) : AppState :=
  clearResult (setBoard "" (setCardC "" (setCardB "" (setCardA "" st)))).

(** The four selectors and their [onChange] handlers. *)
Inductive Slot : Type := HoleA | HoleB | HoleC | Shown.

Definition select (s : Slot) (v : string) (st : AppState) : AppState :=
  match s with
  | HoleA => setCardA v st
  | HoleB => setCardB v st
  | HoleC => setCardC v st
  | Shown => setBoard v st
  end.

(** What a selector can deliver: the empty value of its first option, or a
    deck card whose option is not disabled. *)
Definition offered (st : AppState) (v : string) : Prop :=
  v = EmptyString \/ (In v DECK /\ disabledOption st v = false).

(** One user action: a selection, the Compute button, the Reset button. *)
Inductive step : AppState -> AppState -> Prop :=
| step_select (s : Slot) (v : string) (st : AppState) :
    offered st v -> step st (select s v st)
| step_compute (st : AppState) : step st (computeEV st)
| step_reset (st : AppState) : step st (reset st).

Inductive reachable : AppState -> Prop :=
| reach_initial : reachable initial
| reach_step (st st' : AppState) : reachable st -> step st st' -> reachable st'.

(** *** Code that runs on the stored result *)

(** The outcome of an expression that may throw a [TypeError]. *)
Inductive Completion (A : Type) : Type :=
| Normal (a : A)
| TypeError.

Arguments Normal {A} a.
Arguments TypeError {A}.

(** [result.probs], [result.ev], [result.counts]: [undefined] on the
    [{ error }] object. *)
Definition get_probs (res : Result) : option (list (Category * JS.number)) :=
  match res with
  | ResOk r => Some (probs r)
  | ResError _ => None
  end.

Definition get_ev (res : Result) : option JS.number :=
  match res with
  | ResOk r => Some (ev r)
  | ResError _ => None
  end.

Definition get_counts (res : Result) : option (list (Category * Z)) :=
  match res with
  | ResOk r => Some (counts r)
  | ResError _ => None
  end.

(** [probs[cat]]. *)
Fixpoint prob_get (o : list (Category * JS.number)) (c : Category) : option JS.number :=
  match o with
  | [] => None
  | (c', p) :: o' => if Category_eqb c c' then Some p else prob_get o' c
  end.

(** [Array.prototype.map] with a callback that may throw: the first throw
    ends the call. *)
Fixpoint map_throwing {A B} (f : A -> Completion B) (l : list A) : Completion (list B) :=
  match l with
  | [] => Normal []
  | x :: l' =>
      match f x with
      | TypeError => TypeError
      | Normal y =>
          match map_throwing f l' with
          | TypeError => TypeError
          | Normal ys => Normal (y :: ys)
          end
      end
  end.

Definition num_mul (x y : JS.number) : JS.number := SFmul JS.prec JS.emax x y.

(** [x || 0] for a number or [undefined]: [undefined], [NaN] and the two
    zeros are falsy. *)
Definition num_or0 (x : option JS.number) : JS.number :=
  match x with
  | Some (S754_finite s m e) => S754_finite s m e
  | Some (S754_infinity s) => S754_infinity s
  | _ => S754_zero false
  end.

(** [Math.round]: the nearest integer, ties towards +infinity; integers,
    zeros, infinities and [NaN] are returned as they are, and a result of
    zero keeps the sign of the argument. *)
Definition Math_round (x : JS.number) : JS.number :=
  match x with
  | S754_finite s m e =>
      if 0 <=? e then x
      else if Zpos m mod 2 ^ (- e) =? 0 then x
      else
        let v := if s then Zneg m else Zpos m in
        let n := (2 * v + 2 ^ (- e)) / 2 ^ (- e + 1) in
        if n =? 0 then S754_zero s else JS.of_Z n
  | _ => x
  end.

Record ChartDatum : Type := mkDatum {
  name : Category;
  value : JS.number
}.

(** The bar height of a probability:
    [Math.round((p || 0) * 100000) / 1000]. *)
Definition bar_value (p : option JS.number) : JS.number :=
  JS.div (Math_round (num_mul (num_or0 p) (JS.of_Z 100000))) (JS.of_Z 1000).

(** [chartData], computed on every render. *)
Definition chartData (st : AppState) : Completion (list ChartDatum) :=
  match result st with
  | None => Normal []
  | Some res =>
      map_throwing
        (fun cat =>
           match get_probs res with
           | None => TypeError
           | Some ps => Normal (mkDatum cat (bar_value (prob_get ps cat)))
           end)
        CATEGORIES
  end.

(** The bar of a count [n] out of [t] is a percentage between 0 and 100,
    within [eps] of the exact one. *)
Definition bar_within (eps : Q) (n t : Z) : bool :=
  match to_Q (bar_value (Some (JS.div (JS.of_Z n) (JS.of_Z t)))) with
  | Some q =>
      Qle_bool 0 q && Qle_bool q 100
      && Qle_bool (Qabs (q - 100 * inject_Z n / inject_Z t)) eps
  | None => false
  end.

Definition bar_check (t : Z) : bool :=
  forallb (fun n => bar_within (1 # 2000) n t) (Zrange 0 (Z.to_nat (t + 1))).

(** No two selectors hold the same card. *)
Definition distinct_or_absent (st : AppState) : Prop :=
  (cardA st = cardB st -> absent (cardA st))
  /\ (cardA st = cardC st -> absent (cardA st))
  /\ (cardA st = board st -> absent (cardA st))
  /\ (cardB st = cardC st -> absent (cardB st))
  /\ (cardB st = board st -> absent (cardB st))
  /\ (cardC st = board st -> absent (cardC st)).

(** Every selector holds a deck card or nothing. *)
Definition deck_or_absent (st : AppState) : Prop :=
  Forall (fun c => absent c \/ In c DECK) (inputs st).

(* ------------------------------------------------------------------ *)
(** ** The CSV export *)

(** The tag of a category, as [CATEGORIES] spells it. *)
Definition tag (c : Category) : string :=
  match c with
  | royal_flush => "royal_flush"
  | straight_flush => "straight_flush"
  | four_kind => "four_kind"
  | full_house => "full_house"
  | flush => "flush"
  | straight => "straight"
  | three_kind => "three_kind"
  | two_pair => "two_pair"
  | pair_10_or_better => "pair_10_or_better"
  | nothing => "nothing"
  end.

(** The decimal digits of a natural number. *)
Definition decimal (n : N) : list ascii :=
  list_ascii_of_string (NilZero.string_of_uint (N.to_uint n)).

(** [String(n)] for an integer-valued number. *)
Definition Z_toString (n : Z) : string := NilZero.string_of_int (Z.to_int n).

(** The integer [n] printed with [f] decimals, as the last steps of
    [Number.prototype.toFixed] do: pad with zeros to [f + 1] digits and put
    the point before the last [f]. *)
Definition fixed_digits (n : N) (f : nat) : string :=
  let m := decimal n in
  if (f =? 0)%nat then string_of_list_ascii m
  else
    let m := if (length m <=? f)%nat
             then repeat "0"%char (f + 1 - length m) ++ m
             else m in
    let k := length m in
    string_of_list_ascii (firstn (k - f) m ++ "."%char :: skipn (k - f) m).

(** The integer [n] for which [n / 10^f] is closest to [m * 2^e], the larger
    one on a tie. *)
Definition scaled (m : positive) (e : Z) (f : nat) : N :=
  Z.to_N (if 0 <=? e then Zpos m * 2 ^ e * 10 ^ Z.of_nat f
          else (2 * (Zpos m * 10 ^ Z.of_nat f) + 2 ^ (- e)) / 2 ^ (- e + 1)).

Definition at_least_1e21 (m : positive) (e : Z) : bool :=
  if 0 <=? e then 10 ^ 21 <=? Zpos m * 2 ^ e
  else 10 ^ 21 * 2 ^ (- e) <=? Zpos m.

(** A cell of a CSV row before [join]: a string, an integer-valued number,
    or [undefined], which [join] prints as the empty string. *)
Inductive Cell : Type :=
| CellString (s : string)
| CellNumber (n : Z)
| CellUndefined.

Definition cell_text (c : Cell) : string :=
  match c with
  | CellString s => s
  | CellNumber n => Z_toString n
  | CellUndefined => EmptyString
  end.

(** [Array.prototype.join] on strings. *)
Fixpoint join (sep : string) (l : list string) : string :=
  match l with
  | [] => EmptyString
  | [x] => x
  | x :: l' => (x ++ sep ++ join sep l')%string
  end.

Definition comma : string := ",".
Definition newline : string := String "010"%char EmptyString.

(** What the click on the generated link hands to the browser. *)
Record Download : Type := mkDownload {
  download : string;
  mime : string;
  text : string
}.

(** A string without a comma and without a line break. *)
Definition plain_char (c : ascii) : bool :=
  negb (Ascii.eqb c ","%char) && negb (Ascii.eqb c "010"%char).

Definition plain (s : string) : bool :=
  forallb plain_char (list_ascii_of_string s).

Section CsvExport.

(** [Number::toString] on a finite double at or above 10^21, which prints
    in exponent notation; the one step of [toFixed] taken as given. *)
Variable big_toString : JS.number -> string.

(** [x.toFixed(f)]. *)
Definition toFixed (x : JS.number) (f : nat) : string :=
  match x with
  | S754_nan => "NaN"
  | S754_infinity false => "Infinity"
  | S754_infinity true => "-Infinity"
  | S754_zero _ => fixed_digits 0 f
  | S754_finite s m e =>
      ((if s then "-" else "")
       ++ (if at_least_1e21 m e then big_toString (S754_finite false m e)
           else fixed_digits (scaled m e f) f))%string
  end.

(** The two rows that the loop of [downloadCSV] pushes for a category. *)
Definition csv_rows (res : Result) (cat : Category) : Completion (list (list Cell)) :=
  match get_probs res with
  | None => TypeError
  | Some ps =>
      match prob_get ps cat with
      | None => TypeError
      | Some p =>
          match get_counts res with
          | None => TypeError
          | Some cs =>
              Normal
                [ [CellString ("P_" ++ tag cat); CellString (toFixed p 6)];
                  [CellString ("Count_" ++ tag cat);
                   match count_get cs cat with
                   | Some n => CellNumber n
                   | None => CellUndefined
                   end] ]
          end
      end
  end.

(** [downloadCSV]: nothing without a result; otherwise the summary file. *)
Definition downloadCSV (st : AppState) : Completion (option Download) :=
  match result st with
  | None => Normal None
  | Some res =>
      let headers := [CellString "metric"; CellString "value"] in
      match get_ev res with
      | None => TypeError
      | Some e =>
          let first := [CellString "EV_per_unit"; CellString (toFixed e 6)] in
          match map_throwing (csv_rows res) CATEGORIES with
          | TypeError => TypeError
          | Normal pushed =>
              let rows := first :: concat pushed in
              let line := fun r => join comma (map cell_text r) in
              let csv := join newline (line headers :: map line rows) in
              Normal (Some (mkDownload "let_it_ride_ev_summary.csv" "text/csv" csv))
          end
      end
  end.

End CsvExport.

(** Reading a cell back as an integer. *)
Definition Z_parse (s : string) : option Z :=
  option_map Z.of_int (NilZero.int_of_string s).

(** A line of the file: two fields around a comma. *)
Definition csv_line (kv : string * string) : string :=
  (fst kv ++ comma ++ snd kv)%string.
(* ------------------------------------------------------------------ *)
(** ** Facts about the built-ins *)

Section SetFacts.
Context {A : Type}.
Variable eqb : A -> A -> bool.
Hypothesis eqb_spec : forall x y, eqb x y = true <-> x = y.

Lemma includes_In (l : list A) (x : A) : JS.includes eqb l x = true <-> In x l.
Proof.
  unfold JS.includes. rewrite existsb_exists. split.
  - intros [y [Hy E]]. apply eqb_spec in E. now subst.
  - intros H. exists x. split; [assumption | now apply eqb_spec].
Qed.

Lemma includes_not_In (l : list A) (x : A) : JS.includes eqb l x = false <-> ~ In x l.
Proof.
  rewrite <- includes_In. destruct (JS.includes eqb l x); split; congruence.
Qed.

Lemma fold_set_add_In (l acc : list A) (x : A) :
  In x (fold_left (JS.set_add eqb) l acc) <-> In x acc \/ In x l.
Proof.
  revert acc. induction l as [| y l IH]; intros acc; simpl.
  - tauto.
  - rewrite IH. unfold JS.set_add.
    destruct (JS.includes eqb acc y) eqn:E.
    + apply includes_In in E. split; [tauto |].
      intros [H | [H | H]]; subst; auto.
    + rewrite in_app_iff. simpl. tauto.
Qed.

Lemma mkSet_In (l : list A) (x : A) : In x (JS.mkSet eqb l) <-> In x l.
Proof. unfold JS.mkSet. rewrite fold_set_add_In. simpl. tauto. Qed.

Lemma fold_set_add_NoDup (l acc : list A) :
  NoDup acc -> NoDup (fold_left (JS.set_add eqb) l acc).
Proof.
  revert acc. induction l as [| y l IH]; intros acc Hacc; simpl.
  - assumption.
  - apply IH. unfold JS.set_add.
    destruct (JS.includes eqb acc y) eqn:E; [assumption |].
    apply includes_not_In in E.
    apply NoDup_app; [assumption | repeat constructor; auto |].
    intros z Hz [Hz' | []]. subst. contradiction.
Qed.

Lemma mkSet_NoDup (l : list A) : NoDup (JS.mkSet eqb l).
Proof. apply fold_set_add_NoDup. constructor. Qed.

Lemma fold_set_add_fresh (l acc : list A) :
  NoDup (acc ++ l) -> fold_left (JS.set_add eqb) l acc = acc ++ l.
Proof.
  revert acc. induction l as [| y l IH]; intros acc H; simpl.
  - now rewrite app_nil_r.
  - assert (Hy : ~ In y acc).
    { intros Hin. apply NoDup_remove_2 in H. apply H.
      apply in_or_app. now left. }
    unfold JS.set_add at 2. apply includes_not_In in Hy. rewrite Hy.
    rewrite IH; rewrite <- app_assoc; simpl; [reflexivity | assumption].
Qed.

Lemma mkSet_id (l : list A) : NoDup l -> JS.mkSet eqb l = l.
Proof. intros H. unfold JS.mkSet. now rewrite fold_set_add_fresh. Qed.

(** A list with a repeated element loses at least one element. *)
Lemma mkSet_length_le (l : list A) : (length (JS.mkSet eqb l) <= length l)%nat.
Proof.
  apply NoDup_incl_length; [apply mkSet_NoDup |].
  intros x Hx. now apply mkSet_In.
Qed.

Lemma mkSet_dup_shrinks (l : list A) :
  ~ NoDup l -> (length (JS.mkSet eqb l) < length l)%nat.
Proof.
  intros Hd.
  destruct (Nat.eq_dec (length (JS.mkSet eqb l)) (length l)) as [E | E].
  - exfalso. apply Hd.
    apply NoDup_incl_NoDup with (l := JS.mkSet eqb l).
    + apply mkSet_NoDup.
    + rewrite E. constructor.
    + intros x Hx. now apply mkSet_In.
  - pose proof (mkSet_length_le l). lia.
Qed.
End SetFacts.

Lemma ascii_eqb_spec (x y : ascii) : JS.ascii_eqb x y = true <-> x = y.
Proof. apply Ascii.eqb_eq. Qed.

Lemma key_eqb_spec (x y : JS.key) : JS.key_eqb x y = true <-> x = y.
Proof.
  destruct x as [a |], y as [b |]; simpl; try (split; congruence).
  rewrite ascii_eqb_spec. split; congruence.
Qed.

Lemma string_eqb_spec (x y : string) : String.eqb x y = true <-> x = y.
Proof. apply String.eqb_eq. Qed.

Lemma Category_eqb_spec (a b : Category) : Category_eqb a b = true <-> a = b.
Proof. destruct a, b; simpl; split; congruence. Qed.

(* ------------------------------------------------------------------ *)
(** ** Sanity checks on the spec's scenarios *)

Example deck_size : length DECK = 52%nat.
Proof. reflexivity. Qed.

Example scenario_royal :
  classify5 ["Ah"; "Kh"; "Qh"; "Jh"; "Th"]%string = royal_flush
  /\ classify5 ["Ah"; "Kh"; "Qh"; "Jh"; "2c"]%string = nothing.
Proof. split; vm_compute; reflexivity. Qed.

Example scenario_quads :
  classify5 ["2c"; "2d"; "2h"; "7s"; "2s"]%string = four_kind
  /\ classify5 ["2c"; "2d"; "2h"; "7s"; "7c"]%string = full_house.
Proof. split; vm_compute; reflexivity. Qed.


(* ------------------------------------------------------------------ *)
(** ** The classifier is total *)

Lemma CATEGORIES_complete (c : Category) : In c CATEGORIES.
Proof. destruct c; simpl; tauto. Qed.

Lemma CATEGORIES_NoDup : NoDup CATEGORIES.
Proof.
  unfold CATEGORIES.
  repeat (constructor; [simpl; intuition discriminate |]).
  constructor.
Qed.

Lemma classify5_ladder (cards : list string) :
  classify5 cards = ladder (ranks_of cards) (isFlush_of (suits_of cards)).
Proof. reflexivity. Qed.

(** C1. For every hand of five pairwise distinct deck cards, [classify5]
    returns a value, that value is one of the ten entries of [CATEGORIES],
    the ten entries are pairwise different, and no other category is
    returned for the same hand. *)
Theorem classify5_total_exclusive (cards : list string) :
  is_hand cards ->
  length CATEGORIES = 10%nat /\ NoDup CATEGORIES
  /\ exists! c : Category, In c CATEGORIES /\ classify5 cards = c.
Proof.
  intros _. split; [reflexivity |]. split; [apply CATEGORIES_NoDup |].
  exists (classify5 cards). split.
  - split; [apply CATEGORIES_complete | reflexivity].
  - intros c [_ E]. exact E.
Qed.

Lemma classify5_total_exclusive_witness :
  is_hand ["Ah"; "Kh"; "Qh"; "Jh"; "Th"]%string
  /\ exists! c : Category,
       In c CATEGORIES /\ classify5 ["Ah"; "Kh"; "Qh"; "Jh"; "Th"]%string = c.
Proof.
  assert (H : is_hand ["Ah"; "Kh"; "Qh"; "Jh"; "Th"]%string).
  { split; [reflexivity |]. split.
    - repeat (constructor; [simpl; intuition discriminate |]). constructor.
    - repeat (constructor; [vm_compute; tauto |]). constructor. }
  split; [exact H |].
  exact (proj2 (proj2 (classify5_total_exclusive _ H))).
Defined.

(* ------------------------------------------------------------------ *)
(** ** Input validation *)

Lemma falsy_absent (c : string) : JS.falsy c = true <-> absent c.
Proof. unfold absent. destruct c; simpl; split; congruence. Qed.

Lemma incomplete_iff (st : AppState) :
  incomplete st <->
  JS.falsy (cardA st) || JS.falsy (cardB st) || JS.falsy (cardC st)
    || JS.falsy (board st) = true.
Proof.
  unfold incomplete, inputs.
  rewrite !orb_true_iff, !falsy_absent. split.
  - intros H. repeat (apply Exists_cons in H; destruct H as [H | H]; [tauto |]).
    inversion H.
  - intros [[[H | H] | H] | H].
    + now apply Exists_cons_hd.
    + now apply Exists_cons_tl, Exists_cons_hd.
    + now do 2 apply Exists_cons_tl; apply Exists_cons_hd.
    + now do 3 apply Exists_cons_tl; apply Exists_cons_hd.
Qed.

Lemma computeEV_incomplete (st : AppState) :
  incomplete st -> computeEV st = setResult (ResError msg_incomplete) st.
Proof.
  intros H. apply incomplete_iff in H. unfold computeEV. now rewrite H.
Qed.

Lemma computeEV_duplicate (st : AppState) :
  ~ incomplete st -> ~ NoDup (inputs st) ->
  computeEV st = setResult (ResError msg_duplicate) st.
Proof.
  intros Hc Hd. rewrite incomplete_iff in Hc. apply not_true_is_false in Hc.
  unfold computeEV. rewrite Hc.
  pose proof (mkSet_dup_shrinks String.eqb string_eqb_spec (inputs st) Hd) as Hlt.
  unfold inputs in Hlt. simpl length in Hlt.
  assert (E : (JS.size (JS.mkSet String.eqb [cardA st; cardB st; cardC st; board st]) <? 4) = true).
  { apply Z.ltb_lt. unfold JS.size. lia. }
  now rewrite E.
Qed.

Lemma computeEV_error_complete (st : AppState) (msg : string) :
  result (computeEV st) = Some (ResError msg) ->
  (incomplete st /\ msg = msg_incomplete)
  \/ (~ incomplete st /\ ~ NoDup (inputs st) /\ msg = msg_duplicate).
Proof.
  unfold computeEV. intros H.
  destruct (JS.falsy (cardA st) || JS.falsy (cardB st) || JS.falsy (cardC st)
            || JS.falsy (board st)) eqn:Ef.
  - left. split; [now apply incomplete_iff |]. simpl in H. congruence.
  - right.
    assert (Hn : ~ incomplete st) by (rewrite incomplete_iff; congruence).
    destruct (JS.size (JS.mkSet String.eqb [cardA st; cardB st; cardC st; board st]) <? 4) eqn:Es.
    + split; [exact Hn |]. split; [| simpl in H; congruence].
      intros Hnd. apply (mkSet_id String.eqb string_eqb_spec) in Hnd.
      unfold inputs in Hnd. rewrite Hnd in Es. discriminate.
    + exfalso.
      destruct (fold_left _ _ _) as [[cs e] bd] in H. simpl in H. discriminate.
Qed.

Lemma msgs_differ : msg_incomplete <> msg_duplicate.
Proof. discriminate. Qed.

(** C7. When an input is absent [computeEV] stores the incomplete-selection
    error; when the four inputs are all supplied and not pairwise distinct it
    stores the duplicate-card error; the two errors are different values of
    the same result type, the call returns a state in both cases, and no
    [ResOk] record (hence no EV) is stored. *)
Theorem computeEV_validation (st : AppState) :
  incomplete st \/ ~ NoDup (inputs st) ->
  (incomplete st -> result (computeEV st) = Some (ResError msg_incomplete))
  /\ (~ incomplete st -> result (computeEV st) = Some (ResError msg_duplicate))
  /\ (forall r, result (computeEV st) <> Some (ResOk r))
  /\ msg_incomplete <> msg_duplicate.
Proof.
  intros H.
  assert (Hi : incomplete st -> result (computeEV st) = Some (ResError msg_incomplete)).
  { intros Hc. now rewrite computeEV_incomplete. }
  assert (Hd : ~ incomplete st -> result (computeEV st) = Some (ResError msg_duplicate)).
  { intros Hc. rewrite computeEV_duplicate; [reflexivity | assumption | tauto]. }
  repeat split; try assumption; [| apply msgs_differ].
  intros r Hr.
  assert (D : incomplete st \/ ~ incomplete st).
  { rewrite incomplete_iff. destruct (_ || _); [left | right]; congruence. }
  destruct D as [D | D]; [rewrite (Hi D) in Hr | rewrite (Hd D) in Hr]; discriminate.
Qed.

Lemma computeEV_validation_witness :
  let st := mkState "Ah" "Ah" "2c" "3d" None in
  ~ NoDup (inputs st)
  /\ result (computeEV st) = Some (ResError msg_duplicate)
  /\ forall r, result (computeEV st) <> Some (ResOk r).
Proof.
  intros st.
  assert (Hd : ~ NoDup (inputs st)).
  { intros H. inversion H as [| x l Hx _]. apply Hx. now left. }
  assert (Hc : ~ incomplete st).
  { rewrite incomplete_iff. discriminate. }
  destruct (computeEV_validation st (or_intror Hd)) as [_ [H2 [H3 _]]].
  split; [exact Hd |]. split; [exact (H2 Hc) | exact H3].
Defined.

(** C10. The completeness check comes first: when some input is absent and
    the supplied ones contain a duplicate, the stored error is the
    incomplete-selection one and not the duplicate-card one; and whenever the
    duplicate-card error is stored, all four inputs are present. *)
Theorem completeness_checked_first (st : AppState) :
  (incomplete st -> ~ NoDup (supplied st) ->
     result (computeEV st) = Some (ResError msg_incomplete)
     /\ result (computeEV st) <> Some (ResError msg_duplicate))
  /\ (result (computeEV st) = Some (ResError msg_duplicate) ->
      Forall (fun c => ~ absent c) (inputs st)).
Proof.
  split.
  - intros Hi _. rewrite computeEV_incomplete by assumption. simpl.
    split; [reflexivity |]. intros E. injection E as E. now apply msgs_differ.
  - intros H. apply computeEV_error_complete in H.
    destruct H as [[_ E] | [Hn _]]; [symmetry in E; now apply msgs_differ in E |].
    apply Forall_forall. intros c Hc Ha. apply Hn.
    apply Exists_exists. now exists c.
Qed.

Lemma completeness_checked_first_witness :
  let st := mkState "Ah" "" "Ah" "3d" None in
  incomplete st /\ ~ NoDup (supplied st)
  /\ result (computeEV st) = Some (ResError msg_incomplete)
  /\ result (computeEV st) <> Some (ResError msg_duplicate).
Proof.
  intros st.
  assert (Hi : incomplete st).
  { apply Exists_cons_tl, Exists_cons_hd. reflexivity. }
  assert (Hd : ~ NoDup (supplied st)).
  { intros H. inversion H as [| x l Hx _]. apply Hx. now left. }
  split; [exact Hi |]. split; [exact Hd |].
  exact (proj1 (completeness_checked_first st) Hi Hd).
Defined.

(* ------------------------------------------------------------------ *)
(** ** Determinism *)

Lemma computeEV_result_inputs (st1 st2 : AppState) :
  inputs st1 = inputs st2 -> result (computeEV st1) = result (computeEV st2).
Proof.
  unfold inputs. intros E. injection E as Ea Eb Ec Ed.
  unfold computeEV. rewrite Ea, Eb, Ec, Ed.
  destruct (_ || _); [reflexivity |].
  destruct (_ <? _); [reflexivity |].
  destruct (fold_left _ _ _) as [[cs e] bd]. reflexivity.
Qed.

Lemma computeEV_inputs (st : AppState) : inputs (computeEV st) = inputs st.
Proof.
  unfold computeEV.
  destruct (_ || _); [reflexivity |].
  destruct (_ <? _); [reflexivity |].
  destruct (fold_left _ _ _) as [[cs e] bd]. reflexivity.
Qed.

(** C9. [computeEV] is a function of the four inputs alone: two states with
    the same inputs, whatever result they held before, end with the same
    result (same [ev], [probs], [counts], [total], [breakdown]); running it a
    second time changes nothing; and the category of a hand depends on the
    hand only. *)
Theorem computeEV_deterministic (st1 st2 : AppState) :
  inputs st1 = inputs st2 ->
  result (computeEV st1) = result (computeEV st2)
  /\ computeEV (computeEV st1) = computeEV st1
  /\ (forall cards1 cards2, cards1 = cards2 -> classify5 cards1 = classify5 cards2).
Proof.
  intros E. split; [now apply computeEV_result_inputs |]. split.
  - pose proof (computeEV_result_inputs (computeEV st1) st1 (computeEV_inputs st1)) as Hr.
    pose proof (computeEV_inputs (computeEV st1)) as Hi.
    destruct (computeEV (computeEV st1)) as [a b c d r].
    destruct (computeEV st1) as [a' b' c' d' r'].
    unfold inputs in Hi. simpl in Hi, Hr. injection Hi as -> -> -> ->.
    now rewrite Hr.
  - intros ? ? ->. reflexivity.
Qed.

Lemma computeEV_deterministic_witness :
  let st1 := mkState "Ah" "Kh" "Qh" "Jh" None in
  let st2 := mkState "Ah" "Kh" "Qh" "Jh" (Some (ResError msg_duplicate)) in
  inputs st1 = inputs st2
  /\ result (computeEV st1) = result (computeEV st2)
  /\ computeEV (computeEV st1) = computeEV st1.
Proof.
  intros st1 st2.
  assert (E : inputs st1 = inputs st2) by reflexivity.
  destruct (computeEV_deterministic st1 st2 E) as [H1 [H2 _]].
  split; [exact E |]. split; [exact H1 | exact H2].
Defined.

(* ------------------------------------------------------------------ *)
(** ** The deck and the candidate pool *)

Lemma DECK_NoDup : NoDup DECK.
Proof.
  replace DECK with (JS.mkSet String.eqb DECK) by (vm_compute; reflexivity).
  apply (mkSet_NoDup String.eqb string_eqb_spec).
Qed.

Lemma DECK_present (c : string) : In c DECK -> JS.falsy c = false.
Proof.
  assert (H : forallb (fun c => negb (JS.falsy c)) DECK = true) by (vm_compute; reflexivity).
  rewrite forallb_forall in H. intros Hc. apply H in Hc.
  now apply negb_true_iff in Hc.
Qed.

Lemma pool_length (known : list string) :
  NoDup known -> incl known DECK ->
  (length (remaining_of known) + length known = 52)%nat.
Proof.
  intros Hk Hi. unfold remaining_of.
  pose proof (filter_length (JS.includes String.eqb known) DECK) as HL.
  change (length DECK) with 52%nat in HL.
  assert (P : Permutation (filter (JS.includes String.eqb known) DECK) known).
  { apply NoDup_Permutation; [apply NoDup_filter, DECK_NoDup | exact Hk |].
    intros x. rewrite filter_In, (includes_In String.eqb string_eqb_spec).
    split; [tauto | intros H; split; auto]. }
  apply Permutation_length in P. lia.
Qed.

Lemma valid_complete (st : AppState) : valid st -> ~ incomplete st.
Proof.
  intros [Hd _] Hi. apply Exists_exists in Hi. destruct Hi as [c [Hc Ha]].
  rewrite Forall_forall in Hd. apply Hd, DECK_present in Hc.
  apply falsy_absent in Ha. congruence.
Qed.

(* ------------------------------------------------------------------ *)
(** ** The enumeration loop *)

Lemma loop_unfold (a b c d : string) (l : list string)
      (cs : list (Category * Z)) (e : Z) (bd : list BreakdownRow) :
  fold_left (loop_body a b c d) l (cs, e, bd) =
  ( fold_left count_incr (map (completion a b c d) l) cs,
    e + fold_right Z.add 0 (map (fun x => PAYTABLE (completion a b c d x)) l),
    bd ++ map (row_of a b c d) l ).
Proof.
  revert cs e bd. induction l as [| x l IH]; intros cs e bd; simpl.
  - now rewrite Z.add_0_r, app_nil_r.
  - rewrite IH. unfold completion, row_of. rewrite <- app_assoc. simpl.
    f_equal. f_equal. lia.
Qed.

Ltac ten_entries cs H :=
  repeat (destruct cs as [| [? ?] cs]; simpl in H; [discriminate H |]);
  destruct cs; [| discriminate H];
  injection H as -> -> -> -> -> -> -> -> -> ->.

Lemma count_incr_keys (cs : list (Category * Z)) (c : Category) :
  map fst (count_incr cs c) = map fst cs.
Proof.
  unfold count_incr. rewrite map_map. apply map_ext.
  intros [k n]. simpl. now destruct (Category_eqb c k).
Qed.

Lemma count_incr_sum (cs : list (Category * Z)) (c : Category) :
  map fst cs = CATEGORIES ->
  sum_over (count_val (count_incr cs c)) = sum_over (count_val cs) + 1.
Proof.
  intros H. unfold CATEGORIES in H. ten_entries cs H.
  destruct c; cbn; lia.
Qed.

Lemma count_incr_weighted (cs : list (Category * Z)) (c : Category) :
  map fst cs = CATEGORIES ->
  sum_over (fun k => count_val (count_incr cs c) k * PAYTABLE k)
  = sum_over (fun k => count_val cs k * PAYTABLE k) + PAYTABLE c.
Proof.
  intros H. unfold CATEGORIES in H. ten_entries cs H.
  destruct c; cbn; lia.
Qed.

Lemma count_incr_nonneg (cs : list (Category * Z)) (c : Category) :
  Forall (fun e => 0 <= snd e) cs -> Forall (fun e => 0 <= snd e) (count_incr cs c).
Proof.
  intros H. unfold count_incr. apply Forall_map.
  eapply Forall_impl; [| exact H].
  intros [k n] Hn. simpl in *. destruct (Category_eqb c k); simpl; lia.
Qed.

Lemma tally_loop (cats : list Category) (cs : list (Category * Z)) :
  map fst cs = CATEGORIES ->
  let cs' := fold_left count_incr cats cs in
  map fst cs' = CATEGORIES
  /\ sum_over (count_val cs') = sum_over (count_val cs) + Z.of_nat (length cats)
  /\ sum_over (fun k => count_val cs' k * PAYTABLE k)
     = sum_over (fun k => count_val cs k * PAYTABLE k)
       + fold_right Z.add 0 (map PAYTABLE cats)
  /\ (Forall (fun e => 0 <= snd e) cs -> Forall (fun e => 0 <= snd e) cs').
Proof.
  revert cs. induction cats as [| c cats IH]; intros cs H; simpl.
  - split; [exact H |]. split; [lia |]. split; [lia | auto].
  - assert (H' : map fst (count_incr cs c) = CATEGORIES) by now rewrite count_incr_keys.
    destruct (IH _ H') as [K [S [W N]]]. simpl in K, S, W, N.
    rewrite count_incr_sum in S by assumption.
    rewrite count_incr_weighted in W by assumption.
    repeat split; try assumption; try lia.
    intros Hn. now apply N, count_incr_nonneg.
Qed.

Lemma computeEV_valid (st : AppState) :
  valid st -> result (computeEV st) = Some (ResOk (outcome st)).
Proof.
  intros Hv. pose proof (valid_complete st Hv) as Hc.
  rewrite incomplete_iff in Hc. apply not_true_is_false in Hc.
  destruct Hv as [_ Hn].
  unfold computeEV. rewrite Hc.
  pose proof (mkSet_id String.eqb string_eqb_spec _ Hn) as Hs.
  unfold inputs in Hs. rewrite Hs. cbn [JS.size length Z.of_nat Z.ltb Z.compare].
  change (Z.of_nat 4 <? 4) with false. cbv iota.
  rewrite loop_unfold. unfold outcome, inputs. simpl. reflexivity.
Qed.

Lemma outcome_facts (st : AppState) :
  valid st ->
  let r := outcome st in
  length (remaining_of (inputs st)) = 48%nat
  /\ total r = 48
  /\ map fst (counts r) = CATEGORIES
  /\ sum_over (count_of r) = 48
  /\ sum_over (fun k => count_of r k * PAYTABLE k)
     = fold_right Z.add 0 (map payout (breakdown r))
  /\ Forall (fun e => 0 <= snd e) (counts r)
  /\ ev r = JS.div (JS.of_Z (sum_over (fun k => count_of r k * PAYTABLE k)))
                   (JS.of_Z 48).
Proof.
  intros [Hd Hn] r.
  assert (HL : length (remaining_of (inputs st)) = 48%nat).
  { pose proof (pool_length (inputs st) Hn) as H.
    assert (Hi : incl (inputs st) DECK).
    { intros x Hx. rewrite Forall_forall in Hd. now apply Hd. }
    specialize (H Hi). unfold inputs in H at 2. simpl length in H. lia. }
  split; [exact HL |].
  split; [subst r; unfold outcome; simpl; rewrite HL; reflexivity |].
  pose proof (tally_loop
                (map (completion (cardA st) (cardB st) (cardC st) (board st))
                     (remaining_of (inputs st)))
                (map (fun c => (c, 0)) CATEGORIES) eq_refl) as [K [S [W N]]].
  rewrite length_map, HL in S.
  assert (W' : sum_over (fun k => count_of r k * PAYTABLE k)
               = fold_right Z.add 0 (map payout (breakdown r))).
  { unfold count_of. subst r. unfold outcome. cbn [counts breakdown].
    rewrite W. rewrite !map_map. reflexivity. }
  split; [exact K |]. split; [exact S |]. split; [exact W' |]. split.
  - apply N. repeat constructor; simpl; lia.
  - rewrite W'. subst r. unfold outcome. cbn [ev breakdown].
    rewrite HL, !map_map. reflexivity.
Qed.

Ltac in_deck := apply (includes_In String.eqb string_eqb_spec); vm_compute; reflexivity.
Ltac distinct := repeat (constructor; [simpl; intuition discriminate |]); constructor.
Ltac is_valid := split; [repeat (constructor; [in_deck |]); constructor | distinct].

(** C3. On a valid request the pool that the code filters out of the deck has
    48 cards, the stored [total] is 48, the count object has the ten
    categories as its keys, and the ten counts add up to 48. *)
Theorem pool_and_counts_48 (st : AppState) :
  valid st ->
  length (remaining_of (JS.mkSet String.eqb (inputs st))) = 48%nat
  /\ exists r, result (computeEV st) = Some (ResOk r)
       /\ total r = 48
       /\ map fst (counts r) = CATEGORIES
       /\ sum_over (count_of r) = 48.
Proof.
  intros Hv. pose proof (outcome_facts st Hv) as [HL [HT [HK [HS _]]]].
  split.
  - destruct Hv as [_ Hn].
    now rewrite (mkSet_id String.eqb string_eqb_spec _ Hn).
  - exists (outcome st). split; [now apply computeEV_valid |]. auto.
Qed.

Lemma pool_and_counts_48_witness :
  let st := mkState "2c" "2d" "2h" "7s" None in
  valid st
  /\ exists r, result (computeEV st) = Some (ResOk r)
       /\ total r = 48
       /\ map fst (counts r) = CATEGORIES
       /\ sum_over (count_of r) = 48.
Proof.
  intros st.
  assert (Hv : valid st) by is_valid.
  split; [exact Hv |].
  exact (proj2 (pool_and_counts_48 st Hv)).
Defined.

(** C8. On a valid request the breakdown has one record per candidate, 48 in
    all; the candidates are the deck with the four known cards filtered out,
    in deck order and without repetition; each record's category is
    [classify5] of the four known cards followed by the candidate, and its
    payout is the paytable entry of that category. *)
Theorem breakdown_in_deck_order (st : AppState) :
  valid st ->
  exists r, result (computeEV st) = Some (ResOk r)
    /\ length (breakdown r) = 48%nat
    /\ map finalCard (breakdown r)
       = filter (fun c => negb (JS.includes String.eqb (inputs st) c)) DECK
    /\ NoDup (map finalCard (breakdown r))
    /\ Forall (fun row =>
                 cat row = classify5 [cardA st; cardB st; cardC st; board st; finalCard row]
                 /\ payout row = PAYTABLE (cat row)) (breakdown r).
Proof.
  intros Hv. pose proof (outcome_facts st Hv) as [HL _].
  exists (outcome st). split; [now apply computeEV_valid |].
  assert (E : map finalCard (breakdown (outcome st)) = remaining_of (inputs st)).
  { unfold outcome. cbn [breakdown]. rewrite map_map. unfold row_of. simpl.
    apply map_id. }
  split; [| split; [exact E | split]].
  - unfold outcome. cbn [breakdown]. now rewrite length_map.
  - rewrite E. apply NoDup_filter, DECK_NoDup.
  - unfold outcome. cbn [breakdown]. apply Forall_map, Forall_forall.
    intros x _. unfold row_of. simpl. split; reflexivity.
Qed.

Lemma breakdown_in_deck_order_witness :
  let st := mkState "Ah" "Kh" "Qh" "Jh" None in
  valid st
  /\ exists r, result (computeEV st) = Some (ResOk r)
       /\ length (breakdown r) = 48%nat
       /\ map finalCard (breakdown r)
          = filter (fun c => negb (JS.includes String.eqb (inputs st) c)) DECK
       /\ NoDup (map finalCard (breakdown r))
       /\ Forall (fun row =>
                    cat row = classify5 [cardA st; cardB st; cardC st; board st; finalCard row]
                    /\ payout row = PAYTABLE (cat row)) (breakdown r).
Proof.
  intros st.
  assert (Hv : valid st) by is_valid.
  split; [exact Hv |].
  exact (breakdown_in_deck_order st Hv).
Defined.

(* ------------------------------------------------------------------ *)
(** ** Royal flush *)

Lemma ladder_royal (ranks : list JS.key) (isFlush : bool) :
  ladder ranks isFlush = royal_flush <->
  isStraight_of (vals_of ranks) = true /\ isFlush = true /\ isRoyal_of ranks = true.
Proof.
  unfold ladder. split.
  - destruct (isStraight_of (vals_of ranks)), isFlush; simpl;
      try (destruct (isRoyal_of ranks); [tauto | discriminate]);
      repeat match goal with
             | |- context [if ?b then _ else _] => destruct b
             end; discriminate.
  - intros [-> [-> ->]]. reflexivity.
Qed.

Lemma high_keys_NoDup : NoDup (map Some high_ranks).
Proof. distinct. Qed.

Lemma isRoyal_iff (ranks : list JS.key) :
  isRoyal_of ranks = true <-> (forall k, In k ranks <-> In k (map Some high_ranks)).
Proof.
  unfold isRoyal_of. cbv zeta.
  set (S := JS.mkSet JS.key_eqb ranks).
  rewrite !andb_true_iff, !(includes_In JS.key_eqb key_eqb_spec), Z.eqb_eq.
  assert (HS : forall k, In k S <-> In k ranks)
    by (intros k; apply (mkSet_In JS.key_eqb key_eqb_spec)).
  assert (HN : NoDup S) by apply (mkSet_NoDup JS.key_eqb key_eqb_spec).
  split.
  - intros [[[[[Hsz HT] HJ] HQ] HK] HA] k.
    assert (Hi : incl (map Some high_ranks) S).
    { intros x Hx. simpl in Hx.
      repeat (destruct Hx as [<- | Hx]; [assumption |]). destruct Hx. }
    assert (Hi' : incl S (map Some high_ranks)).
    { apply NoDup_length_incl; [apply high_keys_NoDup | | exact Hi].
      unfold JS.size in Hsz. simpl. lia. }
    rewrite <- HS. split; [apply Hi' | apply Hi].
  - intros H.
    assert (P : Permutation S (map Some high_ranks)).
    { apply NoDup_Permutation; [exact HN | apply high_keys_NoDup |].
      intros k. now rewrite HS. }
    apply Permutation_length in P. unfold JS.size. rewrite P.
    repeat split; try reflexivity; apply HS, H; simpl; tauto.
Qed.

(* ------------------------------------------------------------------ *)
(** ** Finite tables over rank lists *)

Lemma tuples_complete {A} (dom : list A) (l : list A) :
  Forall (fun x => In x dom) l -> In l (tuples (length l) dom).
Proof.
  induction 1 as [| x l Hx _ IH]; simpl.
  - now left.
  - apply in_flat_map. exists x. split; [exact Hx |]. now apply in_map.
Qed.

Lemma DECK_rank (c : string) :
  In c DECK -> In (JS.char_at c 0) (map Some RANKS).
Proof.
  intros H. unfold DECK in H. apply in_flat_map in H.
  destruct H as [r [Hr H]]. apply in_map_iff in H.
  destruct H as [s [<- _]].
  change (JS.char_at (card_of r s) 0) with (Some r). now apply in_map.
Qed.


Lemma isFlush_all_same (cards : list string) :
  cards <> [] -> (is_flush cards = true <-> all_same_suit cards).
Proof.
  intros Hne. unfold is_flush, isFlush_of, all_same_suit.
  set (S := JS.mkSet (JS.opt_eqb JS.ascii_eqb) (suits_of cards)).
  assert (HS : forall k, In k S <-> In k (suits_of cards))
    by (intros k; apply (mkSet_In _ key_eqb_spec)).
  assert (HN : NoDup S) by apply (mkSet_NoDup _ key_eqb_spec).
  rewrite Z.eqb_eq. unfold JS.size. split.
  - intros Hsz. destruct S as [| s [| s' S']] eqn:ES; simpl in Hsz; try lia.
    exists s. apply Forall_forall. intros c Hc.
    assert (Hin : In (JS.char_at c 1) (suits_of cards))
      by (unfold suits_of; now apply in_map with (f := fun c => JS.char_at c 1)).
    apply HS in Hin. destruct Hin as [E | []]. now symmetry.
  - intros [s Hs]. rewrite Forall_forall in Hs.
    assert (Hle : (length S <= 1)%nat).
    { apply (NoDup_incl_length (l' := [s]) HN).
      intros k Hk. apply HS in Hk. unfold suits_of in Hk.
      apply in_map_iff in Hk. destruct Hk as [c [<- Hc]]. left.
      symmetry. now apply Hs. }
    destruct cards as [| c cards]; [congruence |].
    assert (Hin : In (JS.char_at c 1) S) by (apply HS; now left).
    destruct S; [destruct Hin | simpl in *; lia].
Qed.

(* ------------------------------------------------------------------ *)
(** ** The wheel *)

Lemma wheel_table : forallb wheel_check (tuples 5 (map Some wheel_ranks)) = true.
Proof. vm_cast_no_check (@eq_refl bool true). Qed.

Lemma wheel_ladder (ranks : list JS.key) :
  length ranks = 5%nat ->
  (forall k, In k ranks <-> In k (map Some wheel_ranks)) ->
  ladder ranks true = straight_flush /\ ladder ranks false = straight.
Proof.
  intros HL HS.
  assert (Hin : In ranks (tuples 5 (map Some wheel_ranks))).
  { rewrite <- HL. apply tuples_complete, Forall_forall. intros k. apply HS. }
  pose proof wheel_table as T. rewrite forallb_forall in T.
  specialize (T _ Hin). unfold wheel_check in T.
  assert (Hc : covers ranks wheel_ranks = true).
  { unfold covers. apply forallb_forall. intros r Hr.
    apply (includes_In JS.key_eqb key_eqb_spec), HS. now apply in_map. }
  rewrite Hc in T. apply andb_true_iff in T.
  now rewrite !Category_eqb_spec in T.
Qed.

(** C4. A hand of five cards whose rank set is exactly {A, 2, 3, 4, 5} is a
    straight for the code; [classify5] returns [straight_flush] when all five
    cards show the same suit and [straight] when they do not, and in neither
    case [royal_flush] or [nothing]. *)
Theorem wheel_classified (cards : list string) :
  length cards = 5%nat ->
  rank_set_is cards wheel_ranks ->
  (all_same_suit cards -> classify5 cards = straight_flush)
  /\ (~ all_same_suit cards -> classify5 cards = straight)
  /\ classify5 cards <> royal_flush /\ classify5 cards <> nothing.
Proof.
  intros HL HS.
  assert (Hne : cards <> []) by (intros ->; discriminate).
  assert (HL' : length (ranks_of cards) = 5%nat)
    by (unfold ranks_of; now rewrite length_map).
  destruct (wheel_ladder _ HL' HS) as [Ht Hf].
  pose proof (isFlush_all_same cards Hne) as HF.
  rewrite classify5_ladder. fold (is_flush cards).
  destruct (is_flush cards).
  - rewrite Ht. split; [reflexivity |]. split; [| split; discriminate].
    intros Hn. exfalso. apply Hn. now apply HF.
  - rewrite Hf. split; [| split; [reflexivity | split; discriminate]].
    intros Ha. apply HF in Ha. discriminate.
Qed.

Lemma wheel_classified_witness :
  let mixed := ["Ah"; "2c"; "3d"; "4s"; "5h"]%string in
  let suited := ["5d"; "Ad"; "3d"; "2d"; "4d"]%string in
  rank_set_is mixed wheel_ranks /\ classify5 mixed = straight
  /\ rank_set_is suited wheel_ranks /\ classify5 suited = straight_flush.
Proof.
  intros mixed suited.
  assert (H1 : rank_set_is mixed wheel_ranks) by (intros k; simpl; tauto).
  assert (H2 : rank_set_is suited wheel_ranks) by (intros k; simpl; tauto).
  destruct (wheel_classified mixed eq_refl H1) as [_ [M _]].
  destruct (wheel_classified suited eq_refl H2) as [S _].
  split; [exact H1 |]. split; [| split; [exact H2 |]].
  - apply M. intros [s Hs].
    inversion Hs as [| ? ? E1 Hs']. inversion Hs' as [| ? ? E2 _].
    simpl in E1, E2. congruence.
  - apply S. exists (Some "d"%char). repeat constructor.
Defined.

(* ------------------------------------------------------------------ *)
(** ** Broadway *)

Lemma broadway_table : forallb broadway_check (tuples 5 (map Some high_ranks)) = true.
Proof. vm_cast_no_check (@eq_refl bool true). Qed.

(** Five cards whose rank set is {T, J, Q, K, A} always pass the straight
    test, so for such a hand the royal flush is decided by the flush alone. *)
Lemma broadway_is_straight (cards : list string) :
  length cards = 5%nat -> rank_set_is cards high_ranks -> is_straight cards = true.
Proof.
  intros HL HS.
  assert (Hin : In (ranks_of cards) (tuples 5 (map Some high_ranks))).
  { replace 5%nat with (length (ranks_of cards))
      by (unfold ranks_of; now rewrite length_map).
    apply tuples_complete, Forall_forall. intros k. apply HS. }
  pose proof broadway_table as T. rewrite forallb_forall in T.
  specialize (T _ Hin). unfold broadway_check in T.
  assert (Hc : covers (ranks_of cards) high_ranks = true).
  { unfold covers. apply forallb_forall. intros r Hr.
    apply (includes_In JS.key_eqb key_eqb_spec), HS. now apply in_map. }
  now rewrite Hc in T.
Qed.

Lemma broadway_is_a_run : In high_ranks runs.
Proof. do 9 right. left. reflexivity. Qed.

(** C5. For five cards, [classify5] returns [royal_flush] exactly when the
    hand is a straight (its rank set is one of the ten runs), is a flush
    (all cards show one suit) and its rank set is {T, J, Q, K, A}.  The
    three conditions are stated on the cards, not through the tests of
    [classify5]. *)
Theorem royal_flush_iff (cards : list string) :
  length cards = 5%nat ->
  (classify5 cards = royal_flush <->
   a_run cards /\ all_same_suit cards /\ rank_set_is cards high_ranks).
Proof.
  intros HL.
  assert (Hne : cards <> []) by (intros ->; discriminate).
  rewrite classify5_ladder, ladder_royal, isRoyal_iff.
  fold (is_flush cards). fold (rank_set_is cards high_ranks).
  rewrite (isFlush_all_same cards Hne). split.
  - intros [_ [Hf Hr]]. split; [| split; assumption].
    exists high_ranks. split; [exact broadway_is_a_run | exact Hr].
  - intros [_ [Hf Hr]].
    split; [exact (broadway_is_straight cards HL Hr) | split; assumption].
Qed.

Lemma royal_flush_iff_witness :
  let cards := ["Ah"; "Kh"; "Qh"; "Jh"; "Th"]%string in
  length cards = 5%nat
  /\ classify5 cards = royal_flush
  /\ a_run cards /\ all_same_suit cards /\ rank_set_is cards high_ranks.
Proof.
  intros cards. split; [reflexivity |]. split; [reflexivity |].
  exact (proj1 (royal_flush_iff cards eq_refl) eq_refl).
Defined.

(* ------------------------------------------------------------------ *)
(** ** A lone pair *)


Lemma occurrences_In (k : JS.key) (ranks : list JS.key) :
  (0 < occurrences k ranks)%nat -> In k ranks.
Proof.
  unfold occurrences. intros H.
  destruct (filter (JS.key_eqb k) ranks) as [| x l] eqn:E; [simpl in H; lia |].
  assert (Hx : In x (filter (JS.key_eqb k) ranks)) by (rewrite E; now left).
  apply filter_In in Hx. destruct Hx as [Hx Hk].
  apply key_eqb_spec in Hk. now subst.
Qed.




Ltac is_a_hand :=
  split; [reflexivity | split; [distinct | repeat (constructor; [in_deck |]); constructor]].




(* ------------------------------------------------------------------ *)
(** ** Expected value and probabilities *)

Lemma number_eqb_spec (x y : JS.number) : number_eqb x y = true <-> x = y.
Proof.
  destruct x as [s | s | | s m e], y as [s' | s' | | s' m' e']; simpl;
    try (split; [discriminate | congruence]);
    rewrite ?andb_true_iff, ?Bool.eqb_true_iff, ?Pos.eqb_eq, ?Z.eqb_eq;
    split; try congruence; try tauto.
  - intros [[-> ->] ->]. reflexivity.
  - intros E. injection E as -> -> ->. tauto.
Qed.

Lemma partial_eqb_spec (a b : partial) : partial_eqb a b = true <-> a = b.
Proof.
  destruct a as [k s], b as [k' s']. unfold partial_eqb. simpl.
  rewrite andb_true_iff, Nat.eqb_eq, number_eqb_spec.
  split; [intros [-> ->]; reflexivity | intros E; injection E as -> ->; tauto].
Qed.

Lemma partial_step_closed (st : list partial) (k j : nat) (s : JS.number) :
  In (k, s) st -> (k + j <= 48)%nat ->
  In ((k + j)%nat, JS.add s (fprob j)) (partial_step st).
Proof.
  intros Hin Hle. unfold partial_step.
  apply (mkSet_In partial_eqb partial_eqb_spec), in_flat_map.
  exists (k, s). split; [exact Hin |].
  unfold partial_next. apply in_map_iff. exists (j, fprob j).
  split; [reflexivity |]. apply filter_In. split.
  - unfold fprob_table. apply in_map_iff. exists j.
    split; [reflexivity |]. apply in_seq. lia.
  - simpl. now apply Nat.leb_le.
Qed.

Lemma partial_reach_closed (js : list nat) (st : list partial) (k : nat) (s : JS.number) :
  In (k, s) st -> (k + list_sum js <= 48)%nat ->
  In ((k + list_sum js)%nat, fold_left JS.add (map fprob js) s)
     (partial_reach (length js) st).
Proof.
  revert st k s. induction js as [| j js IH]; intros st k s Hin Hle; simpl in *.
  - now rewrite Nat.add_0_r.
  - rewrite Nat.add_assoc. apply IH.
    + apply partial_step_closed; [exact Hin | lia].
    + lia.
Qed.

Lemma partial_table : forallb sums_to_one (partial_reach 10 partial_start) = true.
Proof. vm_cast_no_check (@eq_refl bool true). Qed.

Lemma near_oneb_sound (x : JS.number) : near_oneb x = true -> near_one x.
Proof.
  unfold near_oneb, near_one. destruct (to_Q x); [| discriminate].
  apply Qle_bool_iff.
Qed.

Lemma sums_to_one_sound (l : list partial) (x : JS.number) :
  forallb sums_to_one l = true -> In (48%nat, x) l -> near_one x.
Proof.
  intros T H. rewrite forallb_forall in T. apply T in H.
  apply near_oneb_sound. exact H.
Qed.

(** Ten doubles [j/48] whose numerators add up to 48 sum to within 1e-9
    of 1, whatever the numerators are. *)
Lemma fsum_near_one (js : list nat) :
  length js = 10%nat -> list_sum js = 48%nat -> near_one (fsum (map fprob js)).
Proof.
  intros HL HS.
  apply (sums_to_one_sound (partial_reach 10 partial_start));
    [exact partial_table |].
  pose proof (partial_reach_closed js partial_start O (S754_zero false)
                                   (or_introl eq_refl)) as H.
  rewrite HL, HS in H. exact (H (Nat.le_refl 48)).
Qed.

Lemma count_get_val (cs : list (Category * Z)) (c : Category) :
  map fst cs = CATEGORIES -> count_get cs c = Some (count_val cs c).
Proof.
  intros H. unfold CATEGORIES in H. ten_entries cs H.
  destruct c; reflexivity.
Qed.

Lemma probs_as_fprob (cs : list (Category * Z)) :
  map fst cs = CATEGORIES ->
  Forall (fun e => 0 <= snd e) cs ->
  sum_over (count_val cs) = 48 ->
  let js := map (fun c => Z.to_nat (count_val cs c)) CATEGORIES in
  map (fun c => prob_of cs 48 c) CATEGORIES = map fprob js
  /\ length js = 10%nat /\ list_sum js = 48%nat.
Proof.
  intros HK HN HS js. split; [| split].
  - subst js. rewrite map_map. apply map_ext_in. intros c _.
    unfold prob_of, fprob. rewrite (count_get_val cs c HK).
    rewrite Z2Nat.id; [reflexivity |].
    unfold count_val. destruct (count_get cs c) as [n |] eqn:E; [| lia].
    assert (Hin : In (c, n) cs).
    { clear - E. induction cs as [| [k v] cs IH]; simpl in E; [discriminate |].
      destruct (Category_eqb c k) eqn:Ek.
      - apply Category_eqb_spec in Ek. injection E as ->. subst. now left.
      - right. now apply IH. }
    rewrite Forall_forall in HN. now apply (HN (c, n)).
  - reflexivity.
  - subst js. unfold CATEGORIES in HK. ten_entries cs HK.
    repeat match goal with
           | H : Forall _ (_ :: _) |- _ => inversion H; clear H; subst
           end.
    cbn in *. lia.
Qed.

(** C2. On a valid request the stored [ev] is the binary64 quotient of the
    integer [sum over the ten categories of counts[c] * PAYTABLE[c]] by 48;
    each stored probability is the binary64 quotient [counts[c] / total]; and
    the ten probabilities, added in binary64 in any order, give a number
    within 1e-9 of 1. *)
Theorem ev_and_probs (st : AppState) :
  valid st ->
  exists r, result (computeEV st) = Some (ResOk r)
    /\ ev r = JS.div (JS.of_Z (sum_over (fun c => count_of r c * PAYTABLE c)))
                     (JS.of_Z 48)
    /\ probs r = map (fun c => (c, JS.div (JS.of_Z (count_of r c)) (JS.of_Z (total r))))
                     CATEGORIES
    /\ near_one (fsum (map snd (probs r)))
    /\ (forall l, Permutation (map snd (probs r)) l -> near_one (fsum l)).
Proof.
  intros Hv. pose proof (outcome_facts st Hv) as [HL [HT [HK [HS [_ [HN HE]]]]]].
  exists (outcome st). split; [now apply computeEV_valid |].
  split; [exact HE |].
  assert (HP : probs (outcome st)
               = map (fun c => (c, prob_of (counts (outcome st)) (total (outcome st)) c))
                     CATEGORIES) by reflexivity.
  assert (HA : forall l, Permutation (map snd (probs (outcome st))) l -> near_one (fsum l)).
  { intros l P. rewrite HP, map_map in P. cbn [snd] in P. rewrite HT in P.
    destruct (probs_as_fprob _ HK HN HS) as [E [L S]].
    rewrite E in P. apply Permutation_sym, Permutation_map_inv in P.
    destruct P as [js [-> P]].
    apply fsum_near_one.
    - now rewrite <- (Permutation_length P).
    - rewrite <- S. symmetry. clear - P.
      induction P; simpl; lia. }
  split; [| split; [apply HA, Permutation_refl | exact HA]].
  rewrite HP. apply map_ext. intros c. unfold prob_of, count_of.
  now rewrite (count_get_val _ c HK).
Qed.

Lemma ev_and_probs_witness :
  let st := mkState "Ah" "Kh" "Qh" "Jh" None in
  valid st
  /\ exists r, result (computeEV st) = Some (ResOk r)
       /\ ev r = JS.div (JS.of_Z (sum_over (fun c => count_of r c * PAYTABLE c)))
                        (JS.of_Z 48)
       /\ probs r = map (fun c => (c, JS.div (JS.of_Z (count_of r c)) (JS.of_Z (total r))))
                        CATEGORIES
       /\ near_one (fsum (map snd (probs r)))
       /\ (forall l, Permutation (map snd (probs r)) l -> near_one (fsum l)).
Proof.
  intros st.
  assert (Hv : valid st) by is_valid.
  split; [exact Hv |].
  exact (ev_and_probs st Hv).
Defined.

(* ------------------------------------------------------------------ *)
(** ** The spec's scenarios, run through [computeEV] *)

Example scenario_broadway_draw :
  exists r, result (computeEV (mkState "Ah" "Kh" "Qh" "Jh" None)) = Some (ResOk r)
    /\ counts r = [ (royal_flush, 1); (straight_flush, 0); (four_kind, 0);
                    (full_house, 0); (flush, 8); (straight, 3); (three_kind, 0);
                    (two_pair, 0); (pair_10_or_better, 12); (nothing, 24) ]
    /\ total r = 48
    /\ to_Q (ev r) = Some (6256954169797291 # 281474976710656)%Q.
Proof. eexists. repeat split; vm_compute; reflexivity. Qed.

Example scenario_trips :
  exists r, result (computeEV (mkState "2c" "2d" "2h" "7s" None)) = Some (ResOk r)
    /\ map (count_of r) CATEGORIES = [0; 0; 1; 3; 0; 0; 44; 0; 0; 0]
    /\ map finalCard (firstn 4 (breakdown r)) = ["2s"; "3c"; "3d"; "3h"]%string.
Proof. eexists. repeat split; vm_compute; reflexivity. Qed.

Example scenario_duplicate :
  result (computeEV (mkState "Ah" "Ah" "2c" "3d" None))
  = Some (ResError msg_duplicate).
Proof. reflexivity. Qed.

(** Own-property order of [counts]: digit keys first, ascending, then the
    other keys as inserted. *)
Example tally_key_order :
  JS.keys (tally [Some "K"; Some "9"; Some "K"; Some "2"; None]%char)
  = [Some "2"; Some "9"; Some "K"; None]%char
  /\ JS.values (tally [Some "K"; Some "9"; Some "K"; Some "2"; None]%char)
     = [1; 1; 2; 1].
Proof. split; reflexivity. Qed.

(* ------------------------------------------------------------------ *)
(** ** Sorting with a numeric comparator *)

Section SortFacts.

Variable cmp : Z -> Z -> Z.
Variable le : Z -> Z -> Prop.
Hypothesis cmp_le : forall x y, (cmp x y <=? 0) = true <-> le x y.
Hypothesis le_total : forall x y, le x y \/ le y x.
Hypothesis le_trans : forall x y z, le x y -> le y z -> le x z.
Hypothesis le_antisym : forall x y, le x y -> le y x -> x = y.

Lemma insert_perm (x : Z) (l : list Z) : Permutation (JS.insert cmp x l) (x :: l).
Proof.
  induction l as [| y l IH]; simpl; [apply Permutation_refl |].
  destruct (cmp x y <=? 0); [apply Permutation_refl |].
  eapply perm_trans; [apply perm_skip, IH | apply perm_swap].
Qed.

Lemma sort_perm (l : list Z) : Permutation (JS.sort cmp l) l.
Proof.
  induction l as [| x l IH]; simpl; [constructor |].
  eapply perm_trans; [apply insert_perm | now apply perm_skip].
Qed.

Lemma insert_sorted (x : Z) (l : list Z) :
  StronglySorted le l -> StronglySorted le (JS.insert cmp x l).
Proof.
  induction 1 as [| y l Hs IH Hy]; simpl.
  - constructor; constructor.
  - destruct (cmp x y <=? 0) eqn:E.
    + apply cmp_le in E. constructor; [now constructor |].
      constructor; [exact E |].
      eapply Forall_impl; [| exact Hy]. intros z Hz. eapply le_trans; eauto.
    + assert (Hyx : le y x).
      { destruct (le_total x y) as [H | H]; [| exact H].
        apply cmp_le in H. congruence. }
      constructor; [exact IH |].
      apply (Permutation_Forall (Permutation_sym (insert_perm x l))).
      now constructor.
Qed.

Lemma sort_sorted (l : list Z) : StronglySorted le (JS.sort cmp l).
Proof.
  induction l as [| x l IH]; simpl; [constructor | now apply insert_sorted].
Qed.

Lemma sorted_perm_eq (l l' : list Z) :
  StronglySorted le l -> StronglySorted le l' -> Permutation l l' -> l = l'.
Proof.
  intros Hs. revert l'. induction Hs as [| x l Hs IH Hx]; intros l' Hs' P.
  - now apply Permutation_nil in P.
  - destruct Hs' as [| y l' Hs' Hy].
    + apply Permutation_sym, Permutation_nil in P. discriminate.
    + assert (E : x = y).
      { assert (Hin : In x (y :: l')) by (apply (Permutation_in _ P); now left).
        assert (Hin' : In y (x :: l))
          by (apply (Permutation_in _ (Permutation_sym P)); now left).
        rewrite Forall_forall in Hx, Hy.
        destruct Hin as [-> | Hin]; [reflexivity |].
        destruct Hin' as [-> | Hin']; [reflexivity |].
        apply le_antisym; auto. }
      subst y. f_equal. apply IH; [exact Hs' |].
      now apply Permutation_cons_inv in P.
Qed.

Lemma sort_perm_invariant (l l' : list Z) :
  Permutation l l' -> JS.sort cmp l = JS.sort cmp l'.
Proof.
  intros P. apply sorted_perm_eq; try apply sort_sorted.
  eapply perm_trans; [apply sort_perm |].
  eapply perm_trans; [exact P | apply Permutation_sym, sort_perm].
Qed.

End SortFacts.

Lemma sort_asc_perm (l l' : list Z) :
  Permutation l l' -> JS.sort (fun a b => a - b) l = JS.sort (fun a b => a - b) l'.
Proof.
  apply (sort_perm_invariant (fun a b => a - b) Z.le); intros; lia.
Qed.

Lemma sort_desc_perm (l l' : list Z) :
  Permutation l l' -> JS.sort (fun a b => b - a) l = JS.sort (fun a b => b - a) l'.
Proof.
  apply (sort_perm_invariant (fun a b => b - a) Z.ge); intros; lia.
Qed.

Lemma sort_desc_sorted (l : list Z) :
  StronglySorted Z.ge (JS.sort (fun a b => b - a) l).
Proof.
  apply (sort_sorted (fun a b => b - a) Z.ge); intros; lia.
Qed.

(* ------------------------------------------------------------------ *)
(** ** The rank histogram *)

Lemma key_eqb_refl (k : JS.key) : JS.key_eqb k k = true.
Proof. now apply key_eqb_spec. Qed.

Lemma key_eqb_neq (k k' : JS.key) : JS.key_eqb k k' = false <-> k <> k'.
Proof.
  rewrite <- key_eqb_spec. destruct (JS.key_eqb k k'); split; congruence.
Qed.

Lemma get_put (o : JS.obj) (k k' : JS.key) (v : Z) :
  JS.get (JS.put o k v) k' = if JS.key_eqb k' k then Some v else JS.get o k'.
Proof.
  induction o as [| [k0 v0] o IH]; simpl.
  - reflexivity.
  - destruct (JS.key_eqb k k0) eqn:E; simpl.
    + apply key_eqb_spec in E. subst k0.
      destruct (JS.key_eqb k' k); reflexivity.
    + destruct (JS.key_eqb k' k0) eqn:E0.
      * apply key_eqb_spec in E0. subst k0.
        destruct (JS.key_eqb k' k) eqn:E1; [| reflexivity].
        apply key_eqb_spec in E1. subst. rewrite key_eqb_refl in E. discriminate.
      * exact IH.
Qed.

Lemma get_None (o : JS.obj) (k : JS.key) :
  JS.get o k = None <-> ~ In k (map fst o).
Proof.
  induction o as [| [k0 v0] o IH]; simpl; [tauto |].
  destruct (JS.key_eqb k k0) eqn:E.
  - apply key_eqb_spec in E. subst. split; [discriminate | tauto].
  - apply key_eqb_neq in E. rewrite IH. split; [intros H [H' | H']; auto | tauto].
Qed.

Lemma keys_put (o : JS.obj) (k : JS.key) (v : Z) :
  map fst (JS.put o k v)
  = if JS.includes JS.key_eqb (map fst o) k then map fst o else map fst o ++ [k].
Proof.
  unfold JS.includes.
  induction o as [| [k0 v0] o IH]; simpl; [reflexivity |].
  destruct (JS.key_eqb k k0); simpl; [reflexivity |].
  rewrite IH. now destruct (existsb _ _).
Qed.

Lemma tally_fold (ranks : list JS.key) : tally ranks = fold_left tally_step ranks [].
Proof. reflexivity. Qed.

Lemma tally_keys_gen (l : list JS.key) (o : JS.obj) :
  map fst (fold_left tally_step l o)
  = fold_left (JS.set_add JS.key_eqb) l (map fst o).
Proof.
  revert o. induction l as [| r l IH]; intros o; simpl; [reflexivity |].
  rewrite IH. unfold tally_step. now rewrite keys_put.
Qed.

Lemma tally_keys (ranks : list JS.key) :
  map fst (tally ranks) = JS.mkSet JS.key_eqb ranks.
Proof. rewrite tally_fold. apply tally_keys_gen. Qed.

Lemma get_or0_put (o : JS.obj) (k k' : JS.key) (v : Z) :
  JS.get_or0 (JS.put o k v) k' = if JS.key_eqb k' k then v else JS.get_or0 o k'.
Proof. unfold JS.get_or0. rewrite get_put. now destruct (JS.key_eqb k' k). Qed.

Lemma tally_count_gen (l : list JS.key) (o : JS.obj) (k : JS.key) :
  JS.get_or0 (fold_left tally_step l o) k
  = JS.get_or0 o k + Z.of_nat (occurrences k l).
Proof.
  revert o. induction l as [| r l IH]; intros o; simpl.
  - unfold occurrences. simpl. lia.
  - rewrite IH. unfold tally_step. rewrite get_or0_put.
    unfold occurrences. simpl.
    destruct (JS.key_eqb k r) eqn:E; simpl.
    + apply key_eqb_spec in E. subst. lia.
    + lia.
Qed.

Lemma tally_in (ranks : list JS.key) (k : JS.key) :
  In k (map fst (tally ranks)) <-> In k ranks.
Proof. rewrite tally_keys. apply (mkSet_In JS.key_eqb key_eqb_spec). Qed.

Lemma In_occurrences (k : JS.key) (ranks : list JS.key) :
  In k ranks -> (0 < occurrences k ranks)%nat.
Proof.
  intros H. unfold occurrences.
  assert (Hin : In k (filter (JS.key_eqb k) ranks)).
  { apply filter_In. split; [exact H | apply key_eqb_refl]. }
  destruct (filter (JS.key_eqb k) ranks); [destruct Hin | simpl; lia].
Qed.

(** The histogram holds, for every rank that occurs, the number of its
    occurrences, and nothing else. *)
Lemma tally_get (ranks : list JS.key) (k : JS.key) :
  JS.get (tally ranks) k
  = if JS.includes JS.key_eqb ranks k then Some (Z.of_nat (occurrences k ranks))
    else None.
Proof.
  pose proof (tally_count_gen ranks [] k) as H. rewrite <- tally_fold in H.
  unfold JS.get_or0 in H. simpl in H.
  destruct (JS.includes JS.key_eqb ranks k) eqn:E.
  - apply (includes_In JS.key_eqb key_eqb_spec), tally_in in E.
    destruct (JS.get (tally ranks) k) eqn:G; [now rewrite H |].
    apply get_None in G. contradiction.
  - apply (includes_not_In JS.key_eqb key_eqb_spec) in E.
    apply get_None. now rewrite tally_in.
Qed.

Lemma filter_perm {A} (p : A -> bool) (l l' : list A) :
  Permutation l l' -> Permutation (filter p l) (filter p l').
Proof.
  induction 1 as [| x l l' _ IH | x y l | l l' l'' _ IH1 _ IH2]; simpl.
  - constructor.
  - destruct (p x); [now constructor | exact IH].
  - destruct (p x), (p y); try apply Permutation_refl. apply perm_swap.
  - eapply perm_trans; eauto.
Qed.

Lemma flat_map_perm {A B} (f : A -> list B) (l l' : list A) :
  Permutation l l' -> Permutation (flat_map f l) (flat_map f l').
Proof.
  induction 1 as [| x l l' _ IH | x y l | l l' l'' _ IH1 _ IH2]; simpl.
  - constructor.
  - now apply Permutation_app_head.
  - rewrite !app_assoc. apply Permutation_app_tail, Permutation_app_comm.
  - eapply perm_trans; eauto.
Qed.

Lemma includes_perm (l l' : list JS.key) (k : JS.key) :
  Permutation l l' -> JS.includes JS.key_eqb l k = JS.includes JS.key_eqb l' k.
Proof.
  intros P.
  destruct (JS.includes JS.key_eqb l k) eqn:E, (JS.includes JS.key_eqb l' k) eqn:E';
    try reflexivity.
  - apply (includes_In JS.key_eqb key_eqb_spec) in E.
    apply (Permutation_in _ P), (includes_In JS.key_eqb key_eqb_spec) in E. congruence.
  - apply (includes_In JS.key_eqb key_eqb_spec) in E'.
    apply (Permutation_in _ (Permutation_sym P)),
      (includes_In JS.key_eqb key_eqb_spec) in E'. congruence.
Qed.

Lemma occurrences_perm' (k : JS.key) (l l' : list JS.key) :
  Permutation l l' -> occurrences k l = occurrences k l'.
Proof. intros P. unfold occurrences. apply Permutation_length. now apply filter_perm. Qed.

Lemma tally_get_perm (l l' : list JS.key) (k : JS.key) :
  Permutation l l' -> JS.get (tally l) k = JS.get (tally l') k.
Proof.
  intros P. rewrite !tally_get.
  now rewrite (includes_perm l l' k P), (occurrences_perm' k l l' P).
Qed.

Lemma tally_keys_perm (l l' : list JS.key) :
  Permutation l l' -> Permutation (map fst (tally l)) (map fst (tally l')).
Proof.
  intros P. apply NoDup_Permutation.
  - rewrite tally_keys. apply (mkSet_NoDup JS.key_eqb key_eqb_spec).
  - rewrite tally_keys. apply (mkSet_NoDup JS.key_eqb key_eqb_spec).
  - intros k. rewrite !tally_in. split; apply Permutation_in; [| apply Permutation_sym]; exact P.
Qed.

Lemma own_keys_perm (o o' : JS.obj) :
  Permutation (map fst o) (map fst o') ->
  Permutation (JS.own_keys o) (JS.own_keys o').
Proof.
  intros P. unfold JS.own_keys. cbv zeta. apply Permutation_app.
  - rewrite (filter_ext _ (JS.includes JS.key_eqb (map fst o')));
      [apply Permutation_refl |].
    intros k. now apply includes_perm.
  - now apply filter_perm.
Qed.

Lemma values_perm (l l' : list JS.key) :
  Permutation l l' -> Permutation (JS.values (tally l)) (JS.values (tally l')).
Proof.
  intros P. unfold JS.values.
  rewrite (flat_map_ext _ (fun k => match JS.get (tally l') k with
                                    | Some v => [v]
                                    | None => []
                                    end)).
  - apply flat_map_perm, own_keys_perm, tally_keys_perm, P.
  - intros k. now rewrite (tally_get_perm l l' k P).
Qed.

Lemma freqs_perm (l l' : list JS.key) :
  Permutation l l' -> freqs_of l = freqs_of l'.
Proof. intros P. unfold freqs_of. now apply sort_desc_perm, values_perm. Qed.

Lemma vals_perm (l l' : list JS.key) :
  Permutation l l' -> vals_of l = vals_of l'.
Proof. intros P. unfold vals_of. now apply sort_asc_perm, Permutation_map. Qed.

Lemma isRoyal_perm (l l' : list JS.key) :
  Permutation l l' -> isRoyal_of l = isRoyal_of l'.
Proof.
  intros P.
  assert (E : isRoyal_of l = true <-> isRoyal_of l' = true).
  { rewrite !isRoyal_iff. split; intros H k; rewrite <- H; split;
      apply Permutation_in; auto using Permutation_sym. }
  destruct (isRoyal_of l), (isRoyal_of l'); try reflexivity;
    [symmetry |]; apply E; reflexivity.
Qed.

(* ------------------------------------------------------------------ *)
(** ** The rank of the pair *)

Lemma find_hd {A} (f : A -> bool) (l : list A) :
  List.find f l = hd_error (filter f l).
Proof.
  induction l as [| x l IH]; simpl; [reflexivity |].
  destruct (f x); [reflexivity | exact IH].
Qed.

Lemma pairRank_filter (counts : JS.obj) :
  pairRank_of counts = hd_error (filter (is_two counts) (JS.own_keys counts)).
Proof. unfold pairRank_of, JS.find, JS.keys. apply find_hd. Qed.

Lemma twos_of_values (o : JS.obj) :
  length (filter (Z.eqb 2) (JS.values o))
  = length (filter (is_two o) (JS.own_keys o)).
Proof.
  unfold JS.values. induction (JS.own_keys o) as [| k ks IH]; [reflexivity |].
  cbn [flat_map filter]. rewrite filter_app, length_app, IH. unfold is_two at 2.
  destruct (JS.get o k) as [v |]; [| reflexivity].
  cbn [filter]. rewrite (Z.eqb_sym 2 v). destruct (v =? 2); reflexivity.
Qed.

Lemma filter_none {A} (p : A -> bool) (l : list A) :
  (forall x, In x l -> p x = false) -> filter p l = [].
Proof.
  induction l as [| x l IH]; intros H; simpl; [reflexivity |].
  rewrite (H x (or_introl eq_refl)). apply IH. intros y Hy. apply H. now right.
Qed.

Lemma one_two (fr : list Z) :
  StronglySorted Z.ge fr ->
  JS.at_is fr 0 2 = true -> JS.at_is fr 1 2 = false ->
  length (filter (Z.eqb 2) fr) = 1%nat.
Proof.
  intros Hs H0 H1. destruct fr as [| a t]; [discriminate |].
  unfold JS.at_is in H0, H1. cbn [nth_error] in H0, H1.
  apply Z.eqb_eq in H0. subst a.
  apply StronglySorted_inv in Hs. destruct Hs as [Hs Ha].
  assert (Ht : filter (Z.eqb 2) t = []).
  { apply filter_none. intros x Hx. apply Z.eqb_neq.
    destruct t as [| b t']; [destruct Hx |].
    apply Z.eqb_neq in H1.
    apply StronglySorted_inv in Hs. destruct Hs as [_ Hb].
    inversion Ha as [| ? ? Hab _]; subst.
    destruct Hx as [<- | Hx]; [congruence |].
    rewrite Forall_forall in Hb. specialize (Hb x Hx). lia. }
  cbn [filter]. rewrite Z.eqb_refl, Ht. reflexivity.
Qed.

Lemma pairRank_perm (l l' : list JS.key) :
  Permutation l l' ->
  JS.at_is (freqs_of l) 0 2 = true -> JS.at_is (freqs_of l) 1 2 = false ->
  pairRank_of (tally l) = pairRank_of (tally l').
Proof.
  intros P H0 H1. rewrite !pairRank_filter.
  assert (L : forall r, freqs_of r = freqs_of l ->
                length (filter (is_two (tally r)) (JS.own_keys (tally r))) = 1%nat).
  { intros r E. rewrite <- twos_of_values.
    rewrite <- (Permutation_length
                  (filter_perm (Z.eqb 2) _ _
                     (sort_perm (fun a b => b - a) (JS.values (tally r))))).
    fold (freqs_of r). rewrite E.
    apply one_two; [apply sort_desc_sorted | exact H0 | exact H1]. }
  pose proof (L l eq_refl) as L1.
  pose proof (L l' (eq_sym (freqs_perm l l' P))) as L2.
  assert (Q : Permutation (filter (is_two (tally l)) (JS.own_keys (tally l)))
                          (filter (is_two (tally l')) (JS.own_keys (tally l')))).
  { rewrite (filter_ext (is_two (tally l)) (is_two (tally l'))).
    - apply filter_perm, own_keys_perm, tally_keys_perm, P.
    - intros k. unfold is_two. now rewrite (tally_get_perm l l' k P). }
  destruct (filter (is_two (tally l)) (JS.own_keys (tally l))) as [| k [| ? ?]];
    try discriminate.
  apply Permutation_length_1_inv in Q. now rewrite Q.
Qed.

(** The ladder reads a rank list as a multiset. *)
Lemma ladder_perm (l l' : list JS.key) (fl : bool) :
  Permutation l l' -> ladder l fl = ladder l' fl.
Proof.
  intros P. unfold ladder. cbv zeta.
  fold (freqs_of l). fold (freqs_of l').
  rewrite <- (freqs_perm l l' P), <- (vals_perm l l' P), <- (isRoyal_perm l l' P).
  destruct (isStraight_of (vals_of l) && fl); [reflexivity |].
  destruct (JS.at_is (freqs_of l) 0 4); [reflexivity |].
  destruct (JS.at_is (freqs_of l) 0 3 && JS.at_is (freqs_of l) 1 2); [reflexivity |].
  destruct fl; [reflexivity |].
  destruct (isStraight_of (vals_of l)); [reflexivity |].
  destruct (JS.at_is (freqs_of l) 0 3); [reflexivity |].
  destruct (JS.at_is (freqs_of l) 0 2) eqn:H0; [| reflexivity].
  destruct (JS.at_is (freqs_of l) 1 2) eqn:H1; [reflexivity |]. simpl.
  now rewrite (pairRank_perm l l' P H0 H1).
Qed.

(* ------------------------------------------------------------------ *)
(** ** Rank lists and their profiles *)

Lemma compositions_complete (p : list nat) :
  In p (compositions (length p) (list_sum p)).
Proof.
  induction p as [| k p IH]; [now left |].
  change (list_sum (k :: p)) with (k + list_sum p)%nat.
  cbn [length compositions].
  apply in_flat_map. exists k. split; [apply in_seq; lia |].
  apply in_map. replace (k + list_sum p - k)%nat with (list_sum p) by lia.
  exact IH.
Qed.

Lemma partition_perm {A} (f : A -> bool) (l : list A) :
  Permutation l (filter f l ++ filter (fun x => negb (f x)) l).
Proof.
  induction l as [| x l IH]; simpl; [constructor |].
  destruct (f x); simpl; [now constructor |].
  now apply Permutation_cons_app.
Qed.

Lemma filter_all_same (d : JS.key) (l : list JS.key) :
  filter (JS.key_eqb d) l = repeat d (occurrences d l).
Proof.
  unfold occurrences. induction l as [| x l IH]; [reflexivity |].
  cbn [filter]. destruct (JS.key_eqb d x) eqn:E; [| exact IH].
  apply key_eqb_spec in E. subst x. cbn [length repeat]. f_equal. exact IH.
Qed.

Lemma occurrences_filter_other (d d' : JS.key) (l : list JS.key) :
  d' <> d ->
  occurrences d' (filter (fun x => negb (JS.key_eqb d x)) l) = occurrences d' l.
Proof.
  intros Hne. unfold occurrences. induction l as [| x l IH]; [reflexivity |].
  cbn [filter]. destruct (JS.key_eqb d x) eqn:E; cbn [negb filter].
  - apply key_eqb_spec in E. subst x.
    apply key_eqb_neq in Hne. now rewrite Hne.
  - destruct (JS.key_eqb d' x); cbn [length]; now rewrite IH.
Qed.

Lemma flat_map_ext_in {A B} (f g : A -> list B) (l : list A) :
  (forall x, In x l -> f x = g x) -> flat_map f l = flat_map g l.
Proof.
  induction l as [| x l IH]; intros H; [reflexivity |].
  cbn [flat_map]. rewrite (H x (or_introl eq_refl)), IH; [reflexivity |].
  intros y Hy. apply H. now right.
Qed.

Lemma spelled_by_counts (dom l : list JS.key) :
  NoDup dom -> (forall x, In x l -> In x dom) ->
  Permutation l (flat_map (fun d => repeat d (occurrences d l)) dom).
Proof.
  revert l. induction dom as [| d dom IH]; intros l Hn Hin.
  - destruct l as [| x l]; [constructor | destruct (Hin x (or_introl eq_refl))].
  - inversion Hn as [| ? ? Hd Hn']; subst. cbn [flat_map].
    eapply perm_trans; [apply (partition_perm (JS.key_eqb d)) |].
    rewrite filter_all_same. apply Permutation_app_head.
    set (l' := filter (fun x => negb (JS.key_eqb d x)) l).
    assert (Hin' : forall x, In x l' -> In x dom).
    { intros x Hx. apply filter_In in Hx. destruct Hx as [Hx Hk].
      apply negb_true_iff, key_eqb_neq in Hk.
      destruct (Hin x Hx) as [E | H]; [congruence | exact H]. }
    eapply perm_trans; [apply (IH l' Hn' Hin') |].
    rewrite (flat_map_ext_in (fun d0 => repeat d0 (occurrences d0 l'))
                             (fun d0 => repeat d0 (occurrences d0 l)));
      [apply Permutation_refl |].
    intros d' Hd'. f_equal. apply occurrences_filter_other. congruence.
Qed.

Lemma length_spelled (f : JS.key -> nat) (dom : list JS.key) :
  length (flat_map (fun d => repeat d (f d)) dom) = list_sum (map f dom).
Proof.
  induction dom as [| d dom IH]; simpl; [reflexivity |].
  now rewrite length_app, repeat_length, IH.
Qed.

Lemma spell_profile (ranks : list JS.key) :
  spell (profile ranks)
  = flat_map (fun d => repeat d (occurrences d ranks)) (map Some RANKS).
Proof. reflexivity. Qed.

Lemma profile_sum (ranks : list JS.key) :
  list_sum (profile ranks)
  = list_sum (map (fun d => occurrences d ranks) (map Some RANKS)).
Proof. reflexivity. Qed.

Lemma keys_NoDup : NoDup (map Some RANKS).
Proof.
  unfold RANKS. simpl.
  repeat (constructor; [simpl; intuition discriminate |]). constructor.
Qed.

Lemma spell_perm (ranks : list JS.key) :
  (forall k, In k ranks -> In k (map Some RANKS)) ->
  Permutation ranks (spell (profile ranks))
  /\ In (profile ranks) (compositions 13 (length ranks)).
Proof.
  intros H.
  pose proof (spelled_by_counts (map Some RANKS) ranks keys_NoDup H) as P.
  split; [now rewrite spell_profile |].
  replace (length ranks) with (list_sum (profile ranks)).
  - apply (compositions_complete (profile ranks)).
  - rewrite (Permutation_length P), length_spelled. apply profile_sum.
Qed.

(* ------------------------------------------------------------------ *)
(** ** Sets and objects read as multisets *)

Lemma mkSet_perm (l l' : list JS.key) :
  Permutation l l' -> Permutation (JS.mkSet JS.key_eqb l) (JS.mkSet JS.key_eqb l').
Proof.
  intros P.
  apply NoDup_Permutation; try apply (mkSet_NoDup JS.key_eqb key_eqb_spec).
  intros k. rewrite !(mkSet_In JS.key_eqb key_eqb_spec).
  split; apply Permutation_in; [| apply Permutation_sym]; exact P.
Qed.

Lemma isFlush_perm (s s' : list (option ascii)) :
  Permutation s s' -> isFlush_of s = isFlush_of s'.
Proof.
  intros P. unfold isFlush_of, JS.size. do 2 f_equal.
  exact (Permutation_length (mkSet_perm s s' P)).
Qed.

Lemma index_key_digit (k : JS.key) :
  JS.is_index_key k = true <-> In k (map Some JS.digits).
Proof.
  destruct k as [c |]; unfold JS.is_index_key.
  - rewrite (includes_In JS.ascii_eqb ascii_eqb_spec). split.
    + intros H. apply in_map_iff. now exists c.
    + intros H. apply in_map_iff in H. destruct H as [c' [E H]].
      now injection E as <-.
  - split; [discriminate |]. intros H. apply in_map_iff in H.
    destruct H as [c' [E _]]. discriminate.
Qed.

Lemma digits_NoDup : NoDup (map Some JS.digits).
Proof.
  unfold JS.digits. simpl.
  repeat (constructor; [simpl; intuition discriminate |]). constructor.
Qed.

(** [Object.keys] lists every key of the object once. *)
Lemma own_keys_all (o : JS.obj) :
  NoDup (map fst o) -> Permutation (JS.own_keys o) (map fst o).
Proof.
  intros Hn. unfold JS.own_keys. cbv zeta.
  eapply perm_trans;
    [| apply Permutation_sym, (partition_perm JS.is_index_key)].
  apply Permutation_app_tail. apply NoDup_Permutation.
  - apply NoDup_filter, digits_NoDup.
  - apply NoDup_filter, Hn.
  - intros k. rewrite !filter_In, (includes_In JS.key_eqb key_eqb_spec),
      index_key_digit. tauto.
Qed.

Lemma tally_NoDup (ranks : list JS.key) : NoDup (map fst (tally ranks)).
Proof. rewrite tally_keys. apply (mkSet_NoDup JS.key_eqb key_eqb_spec). Qed.

Lemma flat_map_single {A B} (f : A -> B) (l : list A) :
  flat_map (fun x => [f x]) l = map f l.
Proof. induction l as [| x l IH]; simpl; [reflexivity | now rewrite IH]. Qed.

Lemma values_tally (ranks : list JS.key) :
  Permutation (JS.values (tally ranks))
              (map (fun d => Z.of_nat (occurrences d ranks))
                   (JS.mkSet JS.key_eqb ranks)).
Proof.
  unfold JS.values.
  eapply perm_trans;
    [apply flat_map_perm, own_keys_all, tally_NoDup |].
  rewrite tally_keys, <- flat_map_single.
  rewrite (flat_map_ext_in
             (fun k => match JS.get (tally ranks) k with
                       | Some v => [v]
                       | None => []
                       end)
             (fun d => [Z.of_nat (occurrences d ranks)]));
    [apply Permutation_refl |].
  intros k Hk. apply (proj1 (mkSet_In JS.key_eqb key_eqb_spec ranks k)) in Hk.
  rewrite tally_get.
  apply (proj2 (includes_In JS.key_eqb key_eqb_spec ranks k)) in Hk.
  now rewrite Hk.
Qed.

Lemma sum_perm (l l' : list Z) :
  Permutation l l' -> fold_right Z.add 0 l = fold_right Z.add 0 l'.
Proof.
  induction 1 as [| x l l' _ IH | x y l | l l' l'' _ IH1 _ IH2]; simpl; lia.
Qed.

Lemma sum_of_nats (f : JS.key -> nat) (dom : list JS.key) :
  fold_right Z.add 0 (map (fun d => Z.of_nat (f d)) dom)
  = Z.of_nat (list_sum (map f dom)).
Proof.
  induction dom as [| d dom IH]; [reflexivity |].
  cbn [map fold_right]. rewrite IH.
  change (list_sum (f d :: map f dom)) with (f d + list_sum (map f dom))%nat.
  lia.
Qed.

Lemma occurrences_total (ranks : list JS.key) :
  list_sum (map (fun d => occurrences d ranks) (JS.mkSet JS.key_eqb ranks))
  = length ranks.
Proof.
  rewrite <- length_spelled. symmetry. apply Permutation_length.
  apply spelled_by_counts.
  - apply (mkSet_NoDup JS.key_eqb key_eqb_spec).
  - intros x Hx. exact (proj2 (mkSet_In JS.key_eqb key_eqb_spec ranks x) Hx).
Qed.

Lemma sort_asc_sorted (l : list Z) :
  StronglySorted Z.le (JS.sort (fun a b => a - b) l).
Proof.
  apply (sort_sorted (fun a b => a - b) Z.le); intros; lia.
Qed.

(* ------------------------------------------------------------------ *)
(** ** The category counters *)

Lemma count_incr_val (cs : list (Category * Z)) (c' c : Category) :
  map fst cs = CATEGORIES ->
  count_val (count_incr cs c') c
  = count_val cs c + (if Category_eqb c' c then 1 else 0).
Proof.
  intros H. unfold CATEGORIES in H. ten_entries cs H.
  destruct c', c; cbn; lia.
Qed.

Lemma count_fold (cats : list Category) (cs : list (Category * Z)) (c : Category) :
  map fst cs = CATEGORIES ->
  count_val (fold_left count_incr cats cs) c
  = count_val cs c
    + Z.of_nat (length (filter (fun k => Category_eqb k c) cats)).
Proof.
  revert cs. induction cats as [| k cats IH]; intros cs H.
  - cbn [fold_left filter length]. lia.
  - cbn [fold_left filter]. rewrite IH by now rewrite count_incr_keys.
    rewrite (count_incr_val cs k c H).
    destruct (Category_eqb k c); cbn [length]; lia.
Qed.

Lemma filter_of_map {A B} (p : B -> bool) (f : A -> B) (l : list A) :
  length (filter p (map f l)) = length (filter (fun x => p (f x)) l).
Proof.
  induction l as [| x l IH]; [reflexivity |].
  cbn [map filter]. destruct (p (f x)); cbn [length]; now rewrite IH.
Qed.

(* ------------------------------------------------------------------ *)
(** ** The ladder against the shapes of five cards *)

Lemma shape_table : forallb shape_check (compositions 13 5) = true.
Proof. vm_cast_no_check (@eq_refl bool true). Qed.

(* ------------------------------------------------------------------ *)
(** ** [computeEV] on every selection *)

Lemma computeEV_ok (st : AppState) :
  ~ incomplete st -> NoDup (inputs st) ->
  result (computeEV st) = Some (ResOk (outcome st)).
Proof.
  intros Hc Hn. rewrite incomplete_iff in Hc. apply not_true_is_false in Hc.
  unfold computeEV. rewrite Hc.
  pose proof (mkSet_id String.eqb string_eqb_spec _ Hn) as Hs.
  unfold inputs in Hs. rewrite Hs. cbn [JS.size length].
  change (Z.of_nat 4 <? 4) with false. cbv iota.
  rewrite loop_unfold. unfold outcome, inputs. simpl. reflexivity.
Qed.

Lemma incomplete_dec (st : AppState) : incomplete st \/ ~ incomplete st.
Proof.
  rewrite incomplete_iff. destruct (_ || _); [left | right]; congruence.
Qed.

Lemma inputs_NoDup_dec (st : AppState) : NoDup (inputs st) \/ ~ NoDup (inputs st).
Proof.
  destruct (ListDec.NoDup_dec string_dec (inputs st)); [left | right]; assumption.
Qed.

Lemma computeEV_ok_inv (st : AppState) (r : EVResult) :
  result (computeEV st) = Some (ResOk r) ->
  ~ incomplete st /\ NoDup (inputs st) /\ r = outcome st.
Proof.
  intros H. destruct (incomplete_dec st) as [Hi | Hc].
  - rewrite computeEV_incomplete in H by assumption. simpl in H. discriminate.
  - destruct (inputs_NoDup_dec st) as [Hn | Hd].
    + rewrite (computeEV_ok st Hc Hn) in H. injection H as <-. auto.
    + rewrite computeEV_duplicate in H by assumption. simpl in H. discriminate.
Qed.

(** X1. [computeEV] always stores a result, and it stores an EV record
    exactly when the four inputs are all present and pairwise distinct; the
    record is then the one of the enumeration, whether or not the inputs are
    deck cards. *)
Theorem computeEV_ok_iff (st : AppState) :
  result (computeEV st) <> None
  /\ ((exists r, result (computeEV st) = Some (ResOk r))
      <-> ~ incomplete st /\ NoDup (inputs st)).
Proof.
  destruct (incomplete_dec st) as [Hi | Hc].
  - rewrite computeEV_incomplete by assumption. simpl.
    split; [discriminate |]. split; [intros [r Hr]; discriminate | tauto].
  - destruct (inputs_NoDup_dec st) as [Hn | Hd].
    + rewrite computeEV_ok by assumption.
      split; [discriminate |]. split; [tauto | intros _; eauto].
    + rewrite computeEV_duplicate by assumption. simpl.
      split; [discriminate |]. split; [intros [r Hr]; discriminate | tauto].
Qed.

Lemma pool_length_general (known : list string) :
  (length (remaining_of known)
   + length (filter (JS.includes String.eqb known) DECK) = 52)%nat.
Proof.
  unfold remaining_of.
  pose proof (filter_length (JS.includes String.eqb known) DECK) as HL.
  change (length DECK) with 52%nat in HL. lia.
Qed.

Lemma pool_bounds (known : list string) :
  NoDup known ->
  (52 - length known <= length (remaining_of known) <= 52)%nat.
Proof.
  intros Hn. pose proof (pool_length_general known) as H.
  assert (Hle : (length (filter (JS.includes String.eqb known) DECK) <= length known)%nat).
  { apply NoDup_incl_length; [apply NoDup_filter, DECK_NoDup |].
    intros x Hx. apply filter_In in Hx. destruct Hx as [_ Hx].
    apply (includes_In String.eqb string_eqb_spec). exact Hx. }
  lia.
Qed.

Lemma record_counts (st : AppState) (r : EVResult) :
  result (computeEV st) = Some (ResOk r) ->
  map fst (counts r) = CATEGORIES
  /\ Forall (fun e => 0 <= snd e) (counts r)
  /\ sum_over (count_of r) = total r
  /\ 48 <= total r <= 52.
Proof.
  intros H. apply computeEV_ok_inv in H. destruct H as [_ [Hn ->]].
  set (pool := remaining_of (inputs st)).
  pose proof (tally_loop
                (map (completion (cardA st) (cardB st) (cardC st) (board st)) pool)
                (map (fun c => (c, 0)) CATEGORIES) eq_refl) as [K [S [_ N]]].
  rewrite length_map in S.
  change (sum_over (count_val (map (fun c => (c, 0)) CATEGORIES))) with 0 in S.
  rewrite Z.add_0_l in S.
  pose proof (pool_bounds (inputs st) Hn) as HB.
  unfold inputs in HB at 1. simpl length in HB. fold pool in HB.
  split; [exact K |]. split; [apply N; repeat constructor; simpl; lia |].
  split; [exact S |].
  unfold outcome; cbn [total]; fold pool; lia.
Qed.

(** X2. Whatever record [computeEV] stores, its ten counts are non-negative
    and add up to [total], the breakdown has [total] rows, [total] lies
    between 48 and 52 (it is 52 minus the number of inputs that are deck
    cards), and [ev] is the binary64 quotient of the weighted count sum, which
    is also the sum of the rows' payouts, by [total]. *)
Theorem stored_record_invariants (st : AppState) (r : EVResult) :
  result (computeEV st) = Some (ResOk r) ->
  map fst (counts r) = CATEGORIES
  /\ Forall (fun e => 0 <= snd e) (counts r)
  /\ sum_over (count_of r) = total r
  /\ Z.of_nat (length (breakdown r)) = total r
  /\ 48 <= total r <= 52
  /\ total r = 52 - Z.of_nat (length (filter (JS.includes String.eqb (inputs st)) DECK))
  /\ sum_over (fun c => count_of r c * PAYTABLE c)
     = fold_right Z.add 0 (map payout (breakdown r))
  /\ ev r = JS.div (JS.of_Z (sum_over (fun c => count_of r c * PAYTABLE c)))
                   (JS.of_Z (total r)).
Proof.
  intros H. apply computeEV_ok_inv in H. destruct H as [_ [Hn ->]].
  set (pool := remaining_of (inputs st)).
  pose proof (tally_loop
                (map (completion (cardA st) (cardB st) (cardC st) (board st)) pool)
                (map (fun c => (c, 0)) CATEGORIES) eq_refl) as [K [S [W N]]].
  rewrite length_map in S.
  change (sum_over (count_val (map (fun c => (c, 0)) CATEGORIES))) with 0 in S.
  rewrite Z.add_0_l in S.
  assert (W' : sum_over (fun k => count_of (outcome st) k * PAYTABLE k)
               = fold_right Z.add 0 (map payout (breakdown (outcome st)))).
  { unfold count_of, outcome. cbn [counts breakdown]. fold pool.
    rewrite W, !map_map. reflexivity. }
  pose proof (pool_bounds (inputs st) Hn) as HB.
  pose proof (pool_length_general (inputs st)) as HG.
  unfold inputs in HB at 1. simpl length in HB. fold pool in HB, HG.
  split; [exact K |]. split; [apply N; repeat constructor; simpl; lia |].
  split; [exact S |].
  split; [unfold outcome; cbn [breakdown total]; now rewrite length_map |].
  split; [unfold outcome; cbn [total]; fold pool; lia |].
  split; [unfold outcome; cbn [total]; fold pool; lia |].
  split; [exact W' |].
  rewrite W'. unfold outcome. cbn [ev breakdown total]. fold pool.
  rewrite !map_map. reflexivity.
Qed.

Lemma stored_record_invariants_witness :
  let st := mkState "Ah" "Kh" "Qh" "Zz" None in
  exists r, result (computeEV st) = Some (ResOk r)
    /\ total r = 49
    /\ sum_over (count_of r) = total r
    /\ Z.of_nat (length (breakdown r)) = total r.
Proof.
  intros st.
  assert (H : result (computeEV st) = Some (ResOk (outcome st))).
  { apply computeEV_ok; [rewrite incomplete_iff; discriminate | distinct]. }
  exists (outcome st). split; [exact H |].
  destruct (stored_record_invariants st (outcome st) H) as [_ [_ [S [B _]]]].
  split; [reflexivity |]. split; [exact S | exact B].
Defined.

(** X3. In a stored record no known card is a candidate, every other deck
    card is a candidate, and no candidate is listed twice. *)
Theorem candidates_are_the_unknown_cards (st : AppState) (r : EVResult) :
  result (computeEV st) = Some (ResOk r) ->
  NoDup (map finalCard (breakdown r))
  /\ forall c, In c (map finalCard (breakdown r)) <-> In c DECK /\ ~ In c (inputs st).
Proof.
  intros H. apply computeEV_ok_inv in H. destruct H as [_ [_ ->]].
  assert (E : map finalCard (breakdown (outcome st)) = remaining_of (inputs st)).
  { unfold outcome. cbn [breakdown]. rewrite map_map. unfold row_of. simpl.
    apply map_id. }
  rewrite E. split; [apply NoDup_filter, DECK_NoDup |].
  intros c. unfold remaining_of. rewrite filter_In, negb_true_iff.
  now rewrite (includes_not_In String.eqb string_eqb_spec).
Qed.

Lemma candidates_are_the_unknown_cards_witness :
  let st := mkState "2c" "2d" "2h" "7s" None in
  exists r, result (computeEV st) = Some (ResOk r)
    /\ NoDup (map finalCard (breakdown r))
    /\ forall c, In c (map finalCard (breakdown r)) <-> In c DECK /\ ~ In c (inputs st).
Proof.
  intros st.
  assert (H : result (computeEV st) = Some (ResOk (outcome st))).
  { apply computeEV_ok; [rewrite incomplete_iff; discriminate | distinct]. }
  exists (outcome st). split; [exact H |].
  exact (candidates_are_the_unknown_cards st (outcome st) H).
Defined.

(* ------------------------------------------------------------------ *)
(** ** From the shape table to poker hands *)

Lemma five_cards_ranks (cards : list string) :
  five_cards cards -> forall k, In k (ranks_of cards) -> In k (map Some RANKS).
Proof.
  intros [_ HD] k Hk. unfold ranks_of in Hk. apply in_map_iff in Hk.
  destruct Hk as [c [<- Hc]]. rewrite Forall_forall in HD.
  apply DECK_rank, HD, Hc.
Qed.

Lemma five_cards_shape (cards : list string) :
  five_cards cards ->
  let p := profile (ranks_of cards) in
  classify5 cards = shape_of p (is_flush cards)
  /\ is_straight cards = is_run p
  /\ profile_facts p = true.
Proof.
  intros H p.
  destruct (spell_perm (ranks_of cards) (five_cards_ranks cards H)) as [P Hin].
  fold p in P, Hin.
  replace (length (ranks_of cards)) with 5%nat in Hin
    by (unfold ranks_of; rewrite length_map; symmetry; apply H).
  pose proof shape_table as T. rewrite forallb_forall in T.
  specialize (T _ Hin). unfold shape_check in T. cbv zeta in T.
  rewrite <- !(ladder_perm _ _ _ P), <- (vals_perm _ _ P) in T.
  rewrite !andb_true_iff in T. destruct T as [[[Tt Tf] Ts] Tp].
  apply Category_eqb_spec in Tt, Tf. apply Bool.eqb_prop in Ts.
  split; [| split; [exact Ts | exact Tp]].
  rewrite classify5_ladder. fold (is_flush cards).
  destruct (is_flush cards); assumption.
Qed.

Lemma rank_count_deck (cards : list string) (r : ascii) :
  Forall (fun c => In c DECK) cards -> (0 < rank_count cards r)%nat -> In r RANKS.
Proof.
  intros HD H. apply occurrences_In in H.
  unfold ranks_of in H. apply in_map_iff in H. destruct H as [c [Ec Hc]].
  rewrite Forall_forall in HD. apply HD, DECK_rank in Hc.
  rewrite Ec in Hc. apply in_map_iff in Hc.
  destruct Hc as [r' [Er' Hr']]. now injection Er' as <-.
Qed.

Lemma has_count_iff (n : nat) (cards : list string) :
  Forall (fun c => In c DECK) cards -> (0 < n)%nat ->
  has_count n (profile (ranks_of cards)) = true <-> exists r, rank_count cards r = n.
Proof.
  intros HD Hn. unfold has_count, profile. rewrite existsb_exists. split.
  - intros [x [Hx E]]. apply in_map_iff in Hx. destruct Hx as [r [<- _]].
    apply Nat.eqb_eq in E. exists r. unfold rank_count. now symmetry.
  - intros [r Hr]. exists n. split; [| apply Nat.eqb_refl].
    apply in_map_iff. exists r. split; [exact Hr |].
    apply (rank_count_deck cards r HD). lia.
Qed.

(** What [shape_of] answers, category by category, on a profile that five
    cards allow. *)
Lemma shape_of_cases (p : list nat) (fl : bool) :
  profile_facts p = true ->
  (shape_of p fl = four_kind <-> has_count 4 p = true)
  /\ (shape_of p fl = full_house <-> has_count 3 p = true /\ has_count 2 p = true)
  /\ (shape_of p fl = flush <->
      fl = true /\ is_run p = false /\ has_count 4 p = false
      /\ (has_count 3 p = false \/ has_count 2 p = false))
  /\ (shape_of p fl = straight <-> is_run p = true /\ fl = false)
  /\ (shape_of p fl = three_kind <->
      has_count 3 p = true /\ has_count 2 p = false /\ fl = false)
  /\ (shape_of p fl = two_pair <-> pair_count p = 2%nat /\ fl = false)
  /\ (shape_of p fl = pair_10_or_better <->
      has_high_pair p = true /\ pair_count p = 1%nat /\ has_count 3 p = false
      /\ fl = false)
  /\ (shape_of p fl = nothing <->
      fl = false /\ is_run p = false /\ has_count 4 p = false
      /\ has_count 3 p = false /\ pair_count p <> 2%nat
      /\ has_high_pair p = false).
Proof.
  unfold profile_facts, shape_of. intros F.
  destruct (pair_count p) as [| [| [| n]]];
    destruct (is_run p), fl, (has_count 4 p), (has_count 3 p), (has_count 2 p),
      (is_broadway p), (has_high_pair p);
    simpl in F |- *; try discriminate F; clear F;
    repeat split; intros; try discriminate; try reflexivity;
    try lia; try tauto; try (intuition discriminate); try (intuition lia).
Qed.

Lemma filter_map_swap {A B} (f : A -> B) (p : B -> bool) (l : list A) :
  filter p (map f l) = map f (filter (fun x => p (f x)) l).
Proof.
  induction l as [| x l IH]; simpl; [reflexivity |].
  destruct (p (f x)); simpl; now rewrite IH.
Qed.

Lemma rank_count_filter (cards : list string) (r : ascii) :
  rank_count cards r
  = length (filter (fun c => JS.key_eqb (Some r) (JS.char_at c 0)) cards).
Proof.
  unfold rank_count, occurrences, ranks_of.
  now rewrite filter_map_swap, length_map.
Qed.

Lemma deck_card_inv (c : string) :
  In c DECK -> exists r s, In r RANKS /\ In s SUITS /\ c = card_of r s.
Proof.
  intros H. unfold DECK in H. apply in_flat_map in H.
  destruct H as [r [Hr H]]. apply in_map_iff in H.
  destruct H as [s [<- Hs]]. eauto.
Qed.

(** Distinct deck cards of one suit have distinct ranks. *)
Lemma suited_ranks_distinct (cards : list string) (r : ascii) :
  NoDup cards -> Forall (fun c => In c DECK) cards -> all_same_suit cards ->
  (rank_count cards r <= 1)%nat.
Proof.
  intros Hn HD [s0 Hs]. rewrite rank_count_filter.
  set (L := filter (fun c => JS.key_eqb (Some r) (JS.char_at c 0)) cards).
  assert (HL : NoDup L) by now apply NoDup_filter.
  destruct L as [| x L'] eqn:EL; [simpl; lia |].
  apply (NoDup_incl_length (l' := [x]) HL).
  intros c Hc. left.
  assert (K : forall y, In y (x :: L') ->
                        exists s, y = card_of r s /\ s0 = Some s).
  { intros y Hy. rewrite <- EL in Hy. apply filter_In in Hy.
    destruct Hy as [Hy Hk].
    rewrite Forall_forall in HD, Hs.
    destruct (deck_card_inv y (HD y Hy)) as [r' [s' [_ [_ ->]]]].
    apply key_eqb_spec in Hk. simpl in Hk. injection Hk as ->.
    exists s'. split; [reflexivity |]. symmetry. exact (Hs _ Hy). }
  destruct (K x (or_introl eq_refl)) as [s [-> E]].
  destruct (K c Hc) as [s' [-> E']]. congruence.
Qed.

Lemma suited_no_count (cards : list string) (n : nat) :
  is_hand cards -> is_flush cards = true -> (2 <= n)%nat ->
  has_count n (profile (ranks_of cards)) = false.
Proof.
  intros [HL [Hn HD]] Hf Hn2.
  destruct (has_count n (profile (ranks_of cards))) eqn:E; [| reflexivity].
  apply has_count_iff in E; [| exact HD | lia]. destruct E as [r Hr].
  assert (Hne : cards <> []) by (intros ->; discriminate).
  apply (isFlush_all_same cards Hne) in Hf.
  pose proof (suited_ranks_distinct cards r Hn HD Hf). lia.
Qed.

Lemma is_hand_five (cards : list string) : is_hand cards -> five_cards cards.
Proof. intros [HL [_ HD]]. now split. Qed.

Lemma RANKS_NoDup : NoDup RANKS.
Proof. distinct. Qed.

Lemma pair_count_filter (ranks : list JS.key) :
  pair_count (profile ranks)
  = length (filter (fun r => (2 =? occurrences (Some r) ranks)%nat) RANKS).
Proof.
  unfold pair_count, profile. now rewrite filter_map_swap, length_map.
Qed.

Lemma two_pairs_iff (cards : list string) :
  five_cards cards ->
  pair_count (profile (ranks_of cards)) = 2%nat <-> two_pairs cards.
Proof.
  intros H5.
  destruct (five_cards_shape cards H5) as [_ [_ F]]. cbv zeta in F.
  assert (Hle : (pair_count (profile (ranks_of cards)) <= 2)%nat).
  { unfold profile_facts in F. rewrite !andb_true_iff in F.
    destruct F as [[_ F5] _]. now apply Nat.leb_le. }
  rewrite pair_count_filter in *.
  set (L := filter (fun r => (2 =? occurrences (Some r) (ranks_of cards))%nat) RANKS) in *.
  assert (HL : NoDup L) by apply NoDup_filter, RANKS_NoDup.
  assert (HI : forall r, In r L <-> rank_count cards r = 2%nat).
  { intros r. unfold L. rewrite filter_In, Nat.eqb_eq. unfold rank_count.
    split; [intros [_ E]; now symmetry |].
    intros E. split; [| now symmetry].
    apply (rank_count_deck cards r (proj2 H5)). unfold rank_count. lia. }
  split.
  - intros E. destruct L as [| r1 [| r2 [| r3 L']]]; try discriminate.
    exists r1, r2. split; [| split; apply HI; simpl; tauto].
    inversion HL as [| ? ? Hx _]. intros ->. apply Hx. now left.
  - intros [r1 [r2 [Hne [H1 H2]]]].
    assert (Hge : (length [r1; r2] <= length L)%nat).
    { apply NoDup_incl_length.
      - repeat constructor; simpl; intuition.
      - intros x [<- | [<- | []]]; now apply HI. }
    simpl in Hge. lia.
Qed.

Lemma high_pair_iff (cards : list string) :
  has_high_pair (profile (ranks_of cards)) = true <-> high_pair cards.
Proof.
  unfold high_pair, rank_count.
  cbv [has_high_pair profile RANKS map seq existsb nth].
  rewrite !orb_true_iff, !Nat.eqb_eq. unfold high_ranks. simpl In. split.
  - intros [H | [H | [H | [H | [H | H]]]]]; try discriminate H;
      eexists; (split; [| exact H]); tauto.
  - intros [r [[<- | [<- | [<- | [<- | [<- | []]]]]] H]]; tauto.
Qed.

Lemma includes_occ (ranks : list JS.key) (k : JS.key) :
  JS.includes JS.key_eqb ranks k = (0 <? occurrences k ranks)%nat.
Proof.
  unfold JS.includes, occurrences.
  induction ranks as [| x l IH]; simpl; [reflexivity |].
  destruct (JS.key_eqb k x); simpl; [reflexivity | exact IH].
Qed.

Lemma is_run_covers (ranks : list JS.key) :
  is_run (profile ranks) = existsb (covers ranks) runs.
Proof.
  cbv [is_run run_positions held profile runs covers RANKS map seq existsb
       forallb nth].
  rewrite !includes_occ. reflexivity.
Qed.

Lemma runs_shape (run : list ascii) :
  In run runs -> NoDup (map Some run) /\ length run = 5%nat.
Proof.
  intros H. cbv [runs run_positions map seq nth RANKS] in H. simpl In in H.
  repeat (destruct H as [<- | H]; [split; [distinct | reflexivity] |]).
  destruct H.
Qed.

Lemma covers_rank_set (cards : list string) (run : list ascii) :
  length cards = 5%nat -> In run runs ->
  covers (ranks_of cards) run = true <-> rank_set_is cards run.
Proof.
  intros HL Hr. destruct (runs_shape run Hr) as [Hn H5].
  unfold covers, rank_set_is. rewrite forallb_forall. split.
  - intros H k.
    assert (Hi : incl (map Some run) (ranks_of cards)).
    { intros x Hx. apply in_map_iff in Hx. destruct Hx as [r [<- Hx]].
      apply (includes_In JS.key_eqb key_eqb_spec). now apply H. }
    split; [| apply Hi].
    apply (NoDup_length_incl Hn); [| exact Hi].
    unfold ranks_of. rewrite !length_map. lia.
  - intros H r Hin. apply (includes_In JS.key_eqb key_eqb_spec), H.
    now apply in_map.
Qed.

Lemma is_run_iff (cards : list string) :
  length cards = 5%nat ->
  is_run (profile (ranks_of cards)) = true <-> a_run cards.
Proof.
  intros HL. rewrite is_run_covers, existsb_exists. unfold a_run.
  split; intros [run [Hr H]]; exists run; (split; [exact Hr |]);
    now apply (covers_rank_set cards run HL Hr).
Qed.

(* ------------------------------------------------------------------ *)
(** ** The categories, read as poker hands *)

(** X4. On five deck cards the code's straight test holds exactly when the
    rank set of the hand is one of the ten straights: five neighbouring
    ranks, or A-2-3-4-5. *)
Theorem straight_test_iff (cards : list string) :
  five_cards cards -> is_straight cards = true <-> a_run cards.
Proof.
  intros H5. destruct (five_cards_shape cards H5) as [_ [-> _]].
  apply is_run_iff, H5.
Qed.

Ltac five_deck_cards :=
  split; [reflexivity | repeat (constructor; [in_deck |]); constructor].

Lemma straight_test_iff_witness :
  let cards := ["9c"; "Kd"; "Jh"; "Td"; "Qs"]%string in
  five_cards cards /\ (is_straight cards = true <-> a_run cards).
Proof.
  intros cards.
  assert (H : five_cards cards) by five_deck_cards.
  split; [exact H | exact (straight_test_iff cards H)].
Defined.

(** X5. On five deck cards [classify5] returns [four_kind] exactly when some
    rank occurs four times. *)
Theorem four_kind_iff (cards : list string) :
  five_cards cards -> classify5 cards = four_kind <-> quads cards.
Proof.
  intros H5. destruct (five_cards_shape cards H5) as [-> [_ F]].
  destruct (shape_of_cases _ (is_flush cards) F) as [-> _].
  apply has_count_iff; [apply H5 | lia].
Qed.

Lemma four_kind_iff_witness :
  let cards := ["2c"; "2d"; "2h"; "7s"; "2s"]%string in
  five_cards cards /\ (classify5 cards = four_kind <-> quads cards).
Proof.
  intros cards.
  assert (H : five_cards cards) by five_deck_cards.
  split; [exact H | exact (four_kind_iff cards H)].
Defined.

(** X6. On five deck cards [classify5] returns [full_house] exactly when one
    rank occurs three times and another twice. *)
Theorem full_house_iff (cards : list string) :
  five_cards cards -> classify5 cards = full_house <-> trips cards /\ a_pair cards.
Proof.
  intros H5. destruct (five_cards_shape cards H5) as [-> [_ F]].
  destruct (shape_of_cases _ (is_flush cards) F) as [_ [-> _]].
  unfold trips, a_pair.
  rewrite !has_count_iff by (try apply H5; lia). reflexivity.
Qed.

Lemma full_house_iff_witness :
  let cards := ["2c"; "7d"; "2h"; "7s"; "2s"]%string in
  five_cards cards /\ (classify5 cards = full_house <-> trips cards /\ a_pair cards).
Proof.
  intros cards.
  assert (H : five_cards cards) by five_deck_cards.
  split; [exact H | exact (full_house_iff cards H)].
Defined.

Lemma false_iff_not (b : bool) (P : Prop) :
  (b = true <-> P) -> (b = false <-> ~ P).
Proof.
  intros [H1 H2]. split.
  - intros E Hp. apply H2 in Hp. congruence.
  - intros Hn. destruct b; [| reflexivity]. exfalso. now apply Hn, H1.
Qed.

Lemma is_flush_iff (cards : list string) :
  five_cards cards -> is_flush cards = true <-> all_same_suit cards.
Proof.
  intros [HL _]. apply isFlush_all_same. intros ->. discriminate.
Qed.

Lemma pair_count_bounds (p : list nat) :
  profile_facts p = true ->
  (pair_count p <= 2)%nat
  /\ (has_count 2 p = true -> (1 <= pair_count p)%nat)
  /\ (has_count 2 p = false -> pair_count p = 0%nat).
Proof.
  unfold profile_facts. rewrite !andb_true_iff.
  intros [[[_ F4] F5] _]. apply Nat.leb_le in F5.
  split; [exact F5 |].
  destruct (has_count 2 p); split; intros; try discriminate.
  - now apply Nat.leb_le.
  - now apply Nat.eqb_eq.
Qed.

(** X7. On a hand of five distinct deck cards [classify5] returns [flush]
    exactly when all five cards show one suit and the ranks are not a
    straight. *)
Theorem flush_iff (cards : list string) :
  is_hand cards ->
  classify5 cards = flush <-> all_same_suit cards /\ ~ a_run cards.
Proof.
  intros Hh. pose proof (is_hand_five cards Hh) as H5.
  destruct (five_cards_shape cards H5) as [-> [_ F]].
  destruct (shape_of_cases _ (is_flush cards) F) as [_ [_ [-> _]]].
  rewrite <- (is_flush_iff cards H5).
  rewrite <- (false_iff_not _ _ (is_run_iff cards (proj1 H5))).
  split; [tauto |]. intros [Hf Hr].
  pose proof (suited_no_count cards 4 Hh Hf). pose proof (suited_no_count cards 3 Hh Hf).
  repeat split; auto with arith.
Qed.

Lemma flush_iff_witness :
  let cards := ["Ah"; "Kh"; "Qh"; "Jh"; "3h"]%string in
  is_hand cards /\ (classify5 cards = flush <-> all_same_suit cards /\ ~ a_run cards).
Proof.
  intros cards.
  assert (H : is_hand cards) by is_a_hand.
  split; [exact H | exact (flush_iff cards H)].
Defined.

(** X8. On five deck cards [classify5] returns [straight] exactly when the
    ranks are a straight and the cards do not all show one suit. *)
Theorem straight_iff (cards : list string) :
  five_cards cards ->
  classify5 cards = straight <-> a_run cards /\ ~ all_same_suit cards.
Proof.
  intros H5. destruct (five_cards_shape cards H5) as [-> [_ F]].
  destruct (shape_of_cases _ (is_flush cards) F) as [_ [_ [_ [-> _]]]].
  rewrite <- (false_iff_not _ _ (is_flush_iff cards H5)).
  now rewrite (is_run_iff cards (proj1 H5)).
Qed.

Lemma straight_iff_witness :
  let cards := ["Ah"; "2c"; "3d"; "4s"; "5h"]%string in
  five_cards cards /\ (classify5 cards = straight <-> a_run cards /\ ~ all_same_suit cards).
Proof.
  intros cards.
  assert (H : five_cards cards) by five_deck_cards.
  split; [exact H | exact (straight_iff cards H)].
Defined.

(** X9. On a hand of five distinct deck cards [classify5] returns
    [three_kind] exactly when some rank occurs three times and no rank
    twice. *)
Theorem three_kind_iff (cards : list string) :
  is_hand cards ->
  classify5 cards = three_kind <-> trips cards /\ ~ a_pair cards.
Proof.
  intros Hh. pose proof (is_hand_five cards Hh) as H5.
  destruct (five_cards_shape cards H5) as [-> [_ F]].
  destruct (shape_of_cases _ (is_flush cards) F) as [_ [_ [_ [_ [-> _]]]]].
  unfold trips, a_pair.
  rewrite <- (has_count_iff 3 cards (proj2 H5)) by lia.
  rewrite <- (false_iff_not _ _ (has_count_iff 2 cards (proj2 H5) ltac:(lia))).
  split; [tauto |]. intros [H3 H2]. repeat split; try assumption.
  destruct (is_flush cards) eqn:Ef; [| reflexivity].
  rewrite (suited_no_count cards 3 Hh Ef) in H3 by lia. discriminate.
Qed.

Lemma three_kind_iff_witness :
  let cards := ["2c"; "2d"; "2h"; "7s"; "9s"]%string in
  is_hand cards /\ (classify5 cards = three_kind <-> trips cards /\ ~ a_pair cards).
Proof.
  intros cards.
  assert (H : is_hand cards) by is_a_hand.
  split; [exact H | exact (three_kind_iff cards H)].
Defined.

(** X10. On a hand of five distinct deck cards [classify5] returns
    [two_pair] exactly when two different ranks occur twice each. *)
Theorem two_pair_iff (cards : list string) :
  is_hand cards -> classify5 cards = two_pair <-> two_pairs cards.
Proof.
  intros Hh. pose proof (is_hand_five cards Hh) as H5.
  destruct (five_cards_shape cards H5) as [-> [_ F]].
  destruct (shape_of_cases _ (is_flush cards) F) as [_ [_ [_ [_ [_ [-> _]]]]]].
  rewrite (two_pairs_iff cards H5).
  split; [tauto |]. intros Ht. split; [exact Ht |].
  destruct (is_flush cards) eqn:Ef; [| reflexivity].
  apply (two_pairs_iff cards H5) in Ht.
  destruct (pair_count_bounds _ F) as [_ [_ H0]].
  rewrite H0 in Ht; [discriminate |]. apply (suited_no_count cards 2 Hh Ef). lia.
Qed.

Lemma two_pair_iff_witness :
  let cards := ["2c"; "2d"; "7h"; "7s"; "9s"]%string in
  is_hand cards /\ (classify5 cards = two_pair <-> two_pairs cards).
Proof.
  intros cards.
  assert (H : is_hand cards) by is_a_hand.
  split; [exact H | exact (two_pair_iff cards H)].
Defined.

(** X11. On a hand of five distinct deck cards [classify5] returns
    [pair_10_or_better] exactly when a rank among T, J, Q, K, A occurs twice
    and the hand holds neither a second pair nor three of a kind. *)
Theorem pair_10_or_better_iff (cards : list string) :
  is_hand cards ->
  classify5 cards = pair_10_or_better
  <-> high_pair cards /\ ~ two_pairs cards /\ ~ trips cards.
Proof.
  intros Hh. pose proof (is_hand_five cards Hh) as H5.
  destruct (five_cards_shape cards H5) as [-> [_ F]].
  destruct (shape_of_cases _ (is_flush cards) F) as [_ [_ [_ [_ [_ [_ [-> _]]]]]]].
  destruct (pair_count_bounds _ F) as [Hle [H1 H0]].
  unfold trips.
  rewrite <- (false_iff_not _ _ (has_count_iff 3 cards (proj2 H5) ltac:(lia))).
  rewrite <- (two_pairs_iff cards H5), <- (high_pair_iff cards).
  assert (HP : has_high_pair (profile (ranks_of cards)) = true ->
               has_count 2 (profile (ranks_of cards)) = true).
  { unfold profile_facts in F. rewrite !andb_true_iff in F.
    destruct F as [_ F6]. intros E. now rewrite E in F6. }
  split.
  - intros [Hh2 [H1' [H3 _]]]. repeat split; try assumption. lia.
  - intros [Hh2 [Hn2 H3]]. pose proof (HP Hh2) as H2.
    specialize (H1 H2). repeat split; try assumption; [lia |].
    destruct (is_flush cards) eqn:Ef; [| reflexivity].
    rewrite (suited_no_count cards 2 Hh Ef) in H2 by lia. discriminate.
Qed.

Lemma pair_10_or_better_iff_witness :
  let cards := ["Qc"; "2d"; "7h"; "Qs"; "9s"]%string in
  is_hand cards
  /\ (classify5 cards = pair_10_or_better
      <-> high_pair cards /\ ~ two_pairs cards /\ ~ trips cards).
Proof.
  intros cards.
  assert (H : is_hand cards) by is_a_hand.
  split; [exact H | exact (pair_10_or_better_iff cards H)].
Defined.

(** X12. On five deck cards [classify5] returns [nothing], the losing
    category, exactly when the hand is none of: one suit, a straight, four of
    a kind, three of a kind, two pairs, a pair of tens or better. *)
Theorem nothing_iff (cards : list string) :
  five_cards cards ->
  classify5 cards = nothing
  <-> ~ all_same_suit cards /\ ~ a_run cards /\ ~ quads cards /\ ~ trips cards
      /\ ~ two_pairs cards /\ ~ high_pair cards.
Proof.
  intros H5. destruct (five_cards_shape cards H5) as [-> [_ F]].
  destruct (shape_of_cases _ (is_flush cards) F) as [_ [_ [_ [_ [_ [_ [_ ->]]]]]]].
  unfold quads, trips.
  rewrite <- (false_iff_not _ _ (is_flush_iff cards H5)).
  rewrite <- (false_iff_not _ _ (is_run_iff cards (proj1 H5))).
  rewrite <- (false_iff_not _ _ (has_count_iff 4 cards (proj2 H5) ltac:(lia))).
  rewrite <- (false_iff_not _ _ (has_count_iff 3 cards (proj2 H5) ltac:(lia))).
  rewrite <- (false_iff_not _ _ (high_pair_iff cards)).
  rewrite <- (two_pairs_iff cards H5). reflexivity.
Qed.

Lemma nothing_iff_witness :
  let cards := ["Ah"; "Kh"; "Qh"; "Jh"; "2c"]%string in
  five_cards cards
  /\ (classify5 cards = nothing
      <-> ~ all_same_suit cards /\ ~ a_run cards /\ ~ quads cards /\ ~ trips cards
          /\ ~ two_pairs cards /\ ~ high_pair cards).
Proof.
  intros cards.
  assert (H : five_cards cards) by five_deck_cards.
  split; [exact H | exact (nothing_iff cards H)].
Defined.

(* ------------------------------------------------------------------ *)
(** ** The order of the cards does not matter *)

Lemma classify5_perm (cards cards' : list string) :
  Permutation cards cards' -> classify5 cards = classify5 cards'.
Proof.
  intros P. rewrite !classify5_ladder.
  rewrite (isFlush_perm (suits_of cards) (suits_of cards'))
    by (unfold suits_of; now apply Permutation_map).
  apply ladder_perm. unfold ranks_of. now apply Permutation_map.
Qed.

(** X13. [classify5] reads its argument as a multiset: reordering the cards
    does not change the category.  This holds for every array of strings,
    whatever its length and whether or not the strings are deck cards. *)
Theorem classify5_order_irrelevant (cards cards' : list string) :
  Permutation cards cards' -> classify5 cards = classify5 cards'.
Proof.
  intros P. rewrite !classify5_ladder.
  rewrite (ladder_perm (ranks_of cards) (ranks_of cards'))
    by (unfold ranks_of; now apply Permutation_map).
  f_equal. apply isFlush_perm. unfold suits_of. now apply Permutation_map.
Qed.

Lemma classify5_order_irrelevant_witness :
  let cards := ["Kc"; "9d"; "Kh"; "2s"; "9s"]%string in
  let cards' := ["9s"; "2s"; "Kh"; "9d"; "Kc"]%string in
  Permutation cards cards' /\ classify5 cards = classify5 cards'.
Proof.
  intros cards cards'.
  assert (P : Permutation cards cards').
  { change cards' with (rev cards). apply Permutation_rev. }
  split; [exact P |].
  exact (classify5_order_irrelevant cards cards' P).
Defined.

Lemma incomplete_perm (st1 st2 : AppState) :
  Permutation (inputs st1) (inputs st2) -> incomplete st1 -> incomplete st2.
Proof.
  intros P H. unfold incomplete in *. rewrite Exists_exists in *.
  destruct H as [c [Hc Ha]]. exists c. split; [| exact Ha].
  exact (Permutation_in c P Hc).
Qed.

Lemma remaining_of_perm (l l' : list string) :
  Permutation l l' -> remaining_of l = remaining_of l'.
Proof.
  intros P. unfold remaining_of. apply filter_ext. intros c. f_equal.
  destruct (JS.includes String.eqb l c) eqn:E, (JS.includes String.eqb l' c) eqn:E';
    try reflexivity.
  - apply (includes_In String.eqb string_eqb_spec) in E.
    apply (Permutation_in c P) in E.
    apply (includes_In String.eqb string_eqb_spec) in E. congruence.
  - apply (includes_In String.eqb string_eqb_spec) in E'.
    apply (Permutation_in c (Permutation_sym P)) in E'.
    apply (includes_In String.eqb string_eqb_spec) in E'. congruence.
Qed.

Lemma completion_perm (st1 st2 : AppState) (x : string) :
  Permutation (inputs st1) (inputs st2) ->
  completion (cardA st1) (cardB st1) (cardC st1) (board st1) x
  = completion (cardA st2) (cardB st2) (cardC st2) (board st2) x.
Proof.
  intros P. unfold completion. apply classify5_perm.
  change [cardA st1; cardB st1; cardC st1; board st1; x] with (inputs st1 ++ [x]).
  change [cardA st2; cardB st2; cardC st2; board st2; x] with (inputs st2 ++ [x]).
  now apply Permutation_app_tail.
Qed.

Lemma outcome_perm (st1 st2 : AppState) :
  Permutation (inputs st1) (inputs st2) -> outcome st1 = outcome st2.
Proof.
  intros P. unfold outcome. cbv zeta.
  rewrite <- (remaining_of_perm _ _ P).
  set (pool := remaining_of (inputs st1)).
  assert (E : forall x,
              completion (cardA st1) (cardB st1) (cardC st1) (board st1) x
              = completion (cardA st2) (cardB st2) (cardC st2) (board st2) x)
    by (intros x; apply (completion_perm st1 st2 x P)).
  assert (E1 : map (completion (cardA st1) (cardB st1) (cardC st1) (board st1)) pool
               = map (completion (cardA st2) (cardB st2) (cardC st2) (board st2)) pool)
    by (apply map_ext; exact E).
  assert (E2 : map (fun x => PAYTABLE (completion (cardA st1) (cardB st1) (cardC st1) (board st1) x)) pool
               = map (fun x => PAYTABLE (completion (cardA st2) (cardB st2) (cardC st2) (board st2) x)) pool).
  { apply map_ext. intros x. now rewrite (E x). }
  assert (E3 : map (row_of (cardA st1) (cardB st1) (cardC st1) (board st1)) pool
               = map (row_of (cardA st2) (cardB st2) (cardC st2) (board st2)) pool).
  { apply map_ext. intros x. unfold row_of. cbv zeta.
    fold (completion (cardA st1) (cardB st1) (cardC st1) (board st1) x).
    fold (completion (cardA st2) (cardB st2) (cardC st2) (board st2) x).
    now rewrite (E x). }
  now rewrite E1, E2, E3.
Qed.

(** X14. What [computeEV] stores does not depend on the order of the four
    selections: which card is the board card, and in which order the hole
    cards were picked, changes nothing in [ev], [probs], [counts], [total]
    or the breakdown, and a rejected request is rejected with the same
    message. *)
Theorem computeEV_order_irrelevant (st1 st2 : AppState) :
  Permutation (inputs st1) (inputs st2) ->
  result (computeEV st1) = result (computeEV st2).
Proof.
  intros P. destruct (incomplete_dec st1) as [Hi | Hc].
  - rewrite (computeEV_incomplete st1 Hi).
    now rewrite (computeEV_incomplete st2 (incomplete_perm st1 st2 P Hi)).
  - assert (Hc' : ~ incomplete st2).
    { intros H. apply Hc. exact (incomplete_perm st2 st1 (Permutation_sym P) H). }
    destruct (inputs_NoDup_dec st1) as [Hn | Hd].
    + rewrite (computeEV_ok st1 Hc Hn).
      rewrite (computeEV_ok st2 Hc' (Permutation_NoDup P Hn)).
      now rewrite (outcome_perm st1 st2 P).
    + assert (Hd' : ~ NoDup (inputs st2)).
      { intros H. apply Hd. exact (Permutation_NoDup (Permutation_sym P) H). }
      rewrite (computeEV_duplicate st1 Hc Hd).
      now rewrite (computeEV_duplicate st2 Hc' Hd').
Qed.

Lemma computeEV_order_irrelevant_witness :
  let st1 := mkState "Ah" "Kh" "Qh" "Jh" None in
  let st2 := mkState "Jh" "Ah" "Kh" "Qh" None in
  Permutation (inputs st1) (inputs st2)
  /\ result (computeEV st1) = result (computeEV st2).
Proof.
  intros st1 st2.
  assert (P : Permutation (inputs st1) (inputs st2)).
  { apply Permutation_sym.
    exact (Permutation_cons_append ["Ah"; "Kh"; "Qh"]%string "Jh"%string). }
  split; [exact P |].
  exact (computeEV_order_irrelevant st1 st2 P).
Defined.

(* ------------------------------------------------------------------ *)
(** ** Ranges of the stored numbers *)

Lemma In_Zrange (lo x : Z) (n : nat) :
  lo <= x < lo + Z.of_nat n -> In x (Zrange lo n).
Proof.
  intros H. unfold Zrange. apply in_map_iff. exists (Z.to_nat (x - lo)).
  split; [lia |]. apply in_seq. lia.
Qed.

Lemma prob_table : forallb prob_check (Zrange 48 5) = true.
Proof. vm_cast_no_check (@eq_refl bool true). Qed.

Lemma quotient_within_sound (lo hi eps : Q) (s t : Z) :
  quotient_within lo hi eps s t = true ->
  exists q, to_Q (JS.div (JS.of_Z s) (JS.of_Z t)) = Some q
    /\ (lo <= q <= hi)%Q
    /\ (Qabs (q - inject_Z s / inject_Z t) <= eps)%Q.
Proof.
  unfold quotient_within.
  destruct (to_Q (JS.div (JS.of_Z s) (JS.of_Z t))) as [q |]; [| discriminate].
  rewrite !andb_true_iff, !Qle_bool_iff. intros [[H1 H2] H3].
  exists q. auto.
Qed.

Lemma count_bounds (cs : list (Category * Z)) (c : Category) :
  map fst cs = CATEGORIES -> Forall (fun e => 0 <= snd e) cs ->
  0 <= count_val cs c <= sum_over (count_val cs)
  /\ - sum_over (count_val cs)
     <= sum_over (fun k => count_val cs k * PAYTABLE k)
     <= 1000 * sum_over (count_val cs).
Proof.
  intros HK HN. unfold CATEGORIES in HK. ten_entries cs HK.
  repeat match goal with
         | H : Forall _ (_ :: _) |- _ => inversion H; clear H; subst
         end.
  destruct c; cbn -[Z.mul Z.add Z.opp] in *; lia.
Qed.

Lemma count_in_range (st : AppState) (r : EVResult) (c : Category) :
  result (computeEV st) = Some (ResOk r) -> 0 <= count_of r c <= total r.
Proof.
  intros H. destruct (record_counts st r H) as [HK [HN [HS _]]].
  destruct (count_bounds (counts r) c HK HN) as [Hc _].
  assert (HS' : sum_over (count_val (counts r)) = total r) by exact HS.
  rewrite HS' in Hc. exact Hc.
Qed.

(** X15. In a stored record every count lies between 0 and [total], the
    weighted count sum between [-total] and [1000 * total], and every
    probability is a double between 0 and 1 that differs from the exact
    fraction [counts[c] / total] by at most 2^-54. *)
Theorem counts_and_probs_in_range (st : AppState) (r : EVResult) (c : Category) :
  result (computeEV st) = Some (ResOk r) ->
  0 <= count_of r c <= total r
  /\ - total r <= sum_over (fun k => count_of r k * PAYTABLE k) <= 1000 * total r
  /\ exists p q, In (c, p) (probs r) /\ to_Q p = Some q
       /\ (0 <= q <= 1)%Q
       /\ (Qabs (q - inject_Z (count_of r c) / inject_Z (total r))
           <= 1 # 18014398509481984)%Q.
Proof.
  intros H.
  destruct (record_counts st r H) as [HK [HN [HS HT]]].
  destruct (count_bounds (counts r) c HK HN) as [Hc Hw].
  assert (HS' : sum_over (count_val (counts r)) = total r) by exact HS.
  rewrite HS' in Hc, Hw.
  split; [exact Hc |]. split; [exact Hw |].
  apply computeEV_ok_inv in H. destruct H as [_ [_ Hr]].
  assert (HP : probs r = map (fun k => (k, prob_of (counts r) (total r) k)) CATEGORIES)
    by (rewrite Hr; reflexivity).
  assert (Hin : In (total r) (Zrange 48 5)) by (apply In_Zrange; lia).
  pose proof prob_table as T. rewrite forallb_forall in T.
  specialize (T _ Hin). unfold prob_check in T. rewrite forallb_forall in T.
  assert (Hn : In (count_of r c) (Zrange 0 (Z.to_nat (total r + 1))))
    by (apply In_Zrange; unfold count_of; lia).
  apply T, quotient_within_sound in Hn. destruct Hn as [q [Hq [Hb He]]].
  exists (JS.div (JS.of_Z (count_of r c)) (JS.of_Z (total r))), q.
  split; [| auto].
  rewrite HP. apply in_map_iff. exists c. split; [| apply CATEGORIES_complete].
  unfold prob_of, count_of. now rewrite (count_get_val _ c HK).
Qed.

Lemma counts_and_probs_in_range_witness :
  let st := mkState "2c" "2d" "2h" "7s" None in
  exists r, result (computeEV st) = Some (ResOk r)
    /\ 0 <= count_of r three_kind <= total r
    /\ exists p q, In (three_kind, p) (probs r) /\ to_Q p = Some q
         /\ (0 <= q <= 1)%Q.
Proof.
  intros st.
  assert (H : result (computeEV st) = Some (ResOk (outcome st))).
  { apply computeEV_ok; [rewrite incomplete_iff; discriminate | distinct]. }
  exists (outcome st). split; [exact H |].
  destruct (counts_and_probs_in_range st (outcome st) three_kind H)
    as [Hc [_ [p [q [Hin [Hq [Hb _]]]]]]].
  split; [exact Hc |]. exists p, q. auto.
Defined.

(* ------------------------------------------------------------------ *)
(** ** [rankIndex] and the deck *)

Section IndexOf.
Context {A : Type}.
Variable eqb : A -> A -> bool.
Hypothesis eqb_spec : forall x y, eqb x y = true <-> x = y.

Lemma indexOf_from_missing (l : list A) (x : A) (i : Z) :
  ~ In x l -> JS.indexOf_from eqb l x i = -1.
Proof.
  revert i. induction l as [| y l IH]; intros i H; simpl; [reflexivity |].
  destruct (eqb x y) eqn:E.
  - apply eqb_spec in E. subst. exfalso. apply H. now left.
  - apply IH. intros Hin. apply H. now right.
Qed.

Lemma indexOf_from_found (l : list A) (x : A) (i : Z) :
  In x l ->
  exists n, JS.indexOf_from eqb l x i = i + Z.of_nat n
            /\ nth_error l n = Some x
            /\ forall m, (m < n)%nat -> nth_error l m <> Some x.
Proof.
  revert i. induction l as [| y l IH]; intros i H; [destruct H |]. simpl.
  destruct (eqb x y) eqn:E.
  - apply eqb_spec in E. subst. exists O.
    split; [lia |]. split; [reflexivity |]. intros m Hm. lia.
  - assert (Hin : In x l).
    { destruct H as [-> | H]; [| exact H].
      assert (eqb x x = true) by now apply eqb_spec. congruence. }
    destruct (IH (i + 1) Hin) as [n [E1 [E2 E3]]].
    exists (S n). split; [lia |]. split; [exact E2 |].
    intros [| m] Hm; simpl.
    + intros Ey. injection Ey as ->.
      assert (eqb x x = true) by now apply eqb_spec. congruence.
    + apply E3. lia.
Qed.
End IndexOf.

(** X16. [rankIndex] inverts the position in [RANKS]: a rank sits at
    position [n] exactly when its index is [n], the thirteen indices are
    0 to 12, and everything else, including [undefined], is sent to [-1]. *)
Theorem rankIndex_round_trip (r : option ascii) :
  (forall n, nth_error (map Some RANKS) n = Some r <-> rankIndex r = Z.of_nat n)
  /\ (~ In r (map Some RANKS) <-> rankIndex r = -1)
  /\ -1 <= rankIndex r <= 12.
Proof.
  assert (Hn : NoDup RANKS) by apply RANKS_NoDup.
  destruct r as [a |]; simpl rankIndex.
  - assert (D : In a RANKS \/ ~ In a RANKS).
    { destruct (in_dec ascii_dec a RANKS); auto. }
    destruct D as [Hin | Hout].
    + destruct (indexOf_from_found JS.ascii_eqb ascii_eqb_spec RANKS a 0 Hin)
        as [k [E1 [E2 E3]]].
      unfold JS.indexOf. rewrite E1.
      assert (Hk : (k < length RANKS)%nat)
        by (apply nth_error_Some; congruence).
      change (length RANKS) with 13%nat in Hk.
      split; [| split; [| lia]].
      * intros n. rewrite nth_error_map. split.
        -- intros H. destruct (nth_error RANKS n) as [b |] eqn:Eb; [| discriminate].
           injection H as ->.
           assert (n = k); [| lia].
           apply (proj1 (NoDup_nth_error RANKS) Hn); [| congruence].
           apply nth_error_Some. congruence.
        -- intros H. assert (n = k) by lia. subst. now rewrite E2.
      * split; [| lia]. intros H. exfalso. apply H. now apply in_map.
    + unfold JS.indexOf.
      rewrite (indexOf_from_missing JS.ascii_eqb ascii_eqb_spec RANKS a 0 Hout).
      split; [| split; [| lia]].
      * intros n. rewrite nth_error_map. split; [| lia].
        intros H. destruct (nth_error RANKS n) as [b |] eqn:Eb; [| discriminate].
        injection H as ->. exfalso. apply Hout. eapply nth_error_In; eauto.
      * split; [reflexivity |]. intros _ H. apply in_map_iff in H.
        destruct H as [b [Eb Hb]]. injection Eb as ->. contradiction.
  - split; [| split; [| lia]].
    + intros n. rewrite nth_error_map. split; [| lia].
      destruct (nth_error RANKS n); discriminate.
    + split; [reflexivity |]. intros _ H. apply in_map_iff in H.
      destruct H as [b [Eb _]]. discriminate.
Qed.

(** X17. The deck lists each pair of a rank and a suit exactly once: it has
    52 pairwise different entries, its entries are the strings [r + s], and
    [r + s] sits at position [4 * rankIndex(r) + SUITS.indexOf(s)], so the
    deck runs through the ranks in order and, within a rank, through the
    suits. *)
Theorem deck_structure :
  length DECK = 52%nat /\ NoDup DECK
  /\ (forall c, In c DECK <-> exists r s, In r RANKS /\ In s SUITS /\ c = card_of r s)
  /\ (forall r s, In r RANKS -> In s SUITS ->
        JS.indexOf String.eqb DECK (card_of r s)
        = 4 * rankIndex (Some r) + JS.indexOf JS.ascii_eqb SUITS s).
Proof.
  split; [reflexivity |]. split; [apply DECK_NoDup |]. split.
  - intros c. split; [apply deck_card_inv |].
    intros [r [s [Hr [Hs ->]]]]. unfold DECK. apply in_flat_map.
    exists r. split; [exact Hr |]. now apply in_map.
  - intros r s Hr Hs. simpl in Hr, Hs.
    repeat (destruct Hr as [<- | Hr];
            [repeat (destruct Hs as [<- | Hs]; [reflexivity |]); destruct Hs |]).
    destruct Hr.
Qed.

Lemma deck_structure_witness :
  JS.indexOf String.eqb DECK (card_of "T"%char "h"%char)
  = 4 * rankIndex (Some "T"%char) + JS.indexOf JS.ascii_eqb SUITS "h"%char.
Proof.
  destruct deck_structure as [_ [_ [_ H]]].
  apply H; simpl; tauto.
Defined.

(* ------------------------------------------------------------------ *)
(** ** The selectors *)

Lemma offered_fresh (st : AppState) (v : string) :
  offered st v ->
  (absent v \/ In v DECK)
  /\ (v = cardA st -> absent v) /\ (v = cardB st -> absent v)
  /\ (v = cardC st -> absent v) /\ (v = board st -> absent v).
Proof.
  intros [-> | [Hd Hf]].
  - unfold absent. tauto.
  - unfold disabledOption in Hf.
    apply (includes_not_In String.eqb string_eqb_spec) in Hf. simpl in Hf.
    split; [now right |].
    repeat split; intros E; exfalso; apply Hf; rewrite <- E; tauto.
Qed.

Lemma select_keeps_invariant (s : Slot) (v : string) (st : AppState) :
  offered st v -> distinct_or_absent st -> deck_or_absent st ->
  distinct_or_absent (select s v st) /\ deck_or_absent (select s v st).
Proof.
  intros Ho Hd Hk. apply offered_fresh in Ho.
  destruct Ho as [Hv [HA [HB [HC HD]]]].
  unfold distinct_or_absent in *. unfold deck_or_absent, inputs in *.
  destruct Hd as [D1 [D2 [D3 [D4 [D5 D6]]]]].
  inversion Hk as [| ? ? Ka Hk1]; subst. inversion Hk1 as [| ? ? Kb Hk2]; subst.
  inversion Hk2 as [| ? ? Kc Hk3]; subst. inversion Hk3 as [| ? ? Kd _]; subst.
  destruct s; simpl;
    (split; [| repeat (apply Forall_cons; [assumption |]); apply Forall_nil]);
    repeat split; intros E; auto;
    try (symmetry in E; unfold absent in *; rewrite E; auto; fail).
  all: unfold absent in *; try (rewrite <- E; auto; fail); try (rewrite E; auto).
Qed.

Lemma computeEV_cards (st : AppState) :
  cardA (computeEV st) = cardA st /\ cardB (computeEV st) = cardB st
  /\ cardC (computeEV st) = cardC st /\ board (computeEV st) = board st.
Proof.
  pose proof (computeEV_inputs st) as H. unfold inputs in H.
  injection H as -> -> -> ->. auto.
Qed.

Lemma complete_distinct_NoDup (st : AppState) :
  distinct_or_absent st -> ~ incomplete st -> NoDup (inputs st).
Proof.
  intros [D1 [D2 [D3 [D4 [D5 D6]]]]] Hc.
  assert (Ha : forall c, In c (inputs st) -> ~ absent c).
  { intros c Hin Ha. apply Hc. apply Exists_exists. eauto. }
  unfold inputs in *.
  assert (Na : ~ absent (cardA st)) by (apply Ha; simpl; tauto).
  assert (Nb : ~ absent (cardB st)) by (apply Ha; simpl; tauto).
  assert (Nc : ~ absent (cardC st)) by (apply Ha; simpl; tauto).
  repeat constructor; simpl; intuition.
Qed.

Lemma reachable_invariant (st : AppState) :
  reachable st ->
  distinct_or_absent st /\ deck_or_absent st
  /\ result st <> Some (ResError msg_duplicate).
Proof.
  induction 1 as [| st st' _ [Hd [Hk Hr]] Hs].
  - split; [| split; [| discriminate]].
    + unfold distinct_or_absent, absent. simpl. tauto.
    + repeat (apply Forall_cons; [left; reflexivity |]). apply Forall_nil.
  - destruct Hs as [s v st Ho | st | st].
    + destruct (select_keeps_invariant s v st Ho Hd Hk) as [Hd' Hk'].
      split; [exact Hd' |]. split; [exact Hk' |]. now destruct s.
    + destruct (computeEV_cards st) as [Ea [Eb [Ec Ed]]].
      split; [| split].
      * unfold distinct_or_absent. now rewrite Ea, Eb, Ec, Ed.
      * unfold deck_or_absent. now rewrite computeEV_inputs.
      * intros E. apply computeEV_error_complete in E.
        destruct E as [[_ E] | [Hc [Hn _]]].
        -- symmetry in E. now apply msgs_differ in E.
        -- apply Hn. now apply complete_distinct_NoDup.
    + split; [| split; [| discriminate]].
      * unfold distinct_or_absent, absent. simpl. tauto.
      * repeat (apply Forall_cons; [left; reflexivity |]). apply Forall_nil.
Qed.

(** X18. A selector offers a deck card only while [disabledOption] is false
    for it, so along any sequence of selections, Compute and Reset clicks
    from the initial state no two selectors hold the same card, the
    duplicate-card error is never stored, and once all four selectors are
    set the request is valid and Compute stores an EV record. *)
Theorem selectors_never_duplicate (st : AppState) :
  reachable st ->
  result st <> Some (ResError msg_duplicate)
  /\ result (computeEV st) <> Some (ResError msg_duplicate)
  /\ (~ incomplete st ->
      valid st /\ exists r, result (computeEV st) = Some (ResOk r) /\ total r = 48).
Proof.
  intros Hr. destruct (reachable_invariant st Hr) as [Hd [Hk H1]].
  split; [exact H1 |]. split.
  - apply (reachable_invariant (computeEV st)).
    eapply reach_step; [exact Hr | apply step_compute].
  - intros Hc.
    assert (Hv : valid st).
    { split; [| now apply complete_distinct_NoDup].
      unfold deck_or_absent in Hk. rewrite Forall_forall in *.
      intros c Hin. destruct (Hk c Hin) as [Ha | Hdk]; [| exact Hdk].
      exfalso. apply Hc. apply Exists_exists. eauto. }
    split; [exact Hv |]. exists (outcome st).
    split; [now apply computeEV_valid |].
    now destruct (outcome_facts st Hv) as [_ [HT _]].
Qed.

Lemma selectors_never_duplicate_witness :
  let st := select Shown "Jh" (select HoleC "Qh" (select HoleB "Kh"
              (select HoleA "Ah" initial))) in
  reachable st /\ ~ incomplete st
  /\ exists r, result (computeEV st) = Some (ResOk r) /\ total r = 48.
Proof.
  intros st.
  assert (Hr : reachable st).
  { unfold st.
    repeat (eapply reach_step;
            [| apply step_select; right; split; [in_deck | reflexivity]]).
    apply reach_initial. }
  assert (Hc : ~ incomplete st) by (rewrite incomplete_iff; discriminate).
  split; [exact Hr |]. split; [exact Hc |].
  destruct (selectors_never_duplicate st Hr) as [_ [_ H]].
  exact (proj2 (H Hc)).
Defined.

(* ------------------------------------------------------------------ *)
(** ** The chart data *)

Lemma map_throwing_normal {A B} (f : A -> Completion B) (g : A -> B) (l : list A) :
  (forall x, In x l -> f x = Normal (g x)) -> map_throwing f l = Normal (map g l).
Proof.
  induction l as [| x l IH]; intros H; simpl; [reflexivity |].
  rewrite (H x (or_introl eq_refl)), IH; [reflexivity |].
  intros y Hy. apply H. now right.
Qed.

Lemma rejected_result (st : AppState) :
  incomplete st \/ ~ NoDup (inputs st) ->
  exists msg, result (computeEV st) = Some (ResError msg).
Proof.
  intros H. destruct (incomplete_dec st) as [Hi | Hc].
  - exists msg_incomplete. now rewrite computeEV_incomplete.
  - exists msg_duplicate. rewrite computeEV_duplicate; [reflexivity | assumption | tauto].
Qed.

(** X19. [chartData] is evaluated on every render and reads
    [result.probs[cat]] whenever a result is stored.  After a rejected
    request the stored object has no [probs], so the evaluation throws a
    [TypeError]: the render that should show the error message fails. *)
Theorem chartData_throws_after_rejection (st : AppState) :
  incomplete st \/ ~ NoDup (inputs st) ->
  chartData (computeEV st) = TypeError.
Proof.
  intros H. destruct (rejected_result st H) as [msg E].
  unfold chartData. rewrite E. reflexivity.
Qed.

Lemma chartData_throws_after_rejection_witness :
  let st := select HoleA "Ah" initial in
  reachable st /\ incomplete st /\ chartData (computeEV st) = TypeError.
Proof.
  intros st.
  assert (Hr : reachable st).
  { eapply reach_step; [apply reach_initial |].
    apply step_select. right. split; [in_deck | reflexivity]. }
  assert (Hi : incomplete st).
  { apply Exists_cons_tl, Exists_cons_hd. reflexivity. }
  split; [exact Hr |]. split; [exact Hi |].
  exact (chartData_throws_after_rejection st (or_introl Hi)).
Defined.

Lemma bar_table : forallb bar_check (Zrange 48 5) = true.
Proof. vm_cast_no_check (@eq_refl bool true). Qed.

Lemma prob_get_map (f : Category -> JS.number) (c : Category) :
  prob_get (map (fun k => (k, f k)) CATEGORIES) c = Some (f c).
Proof. destruct c; reflexivity. Qed.

Lemma stored_probs (st : AppState) (r : EVResult) (c : Category) :
  result (computeEV st) = Some (ResOk r) ->
  prob_get (probs r) c
  = Some (JS.div (JS.of_Z (count_of r c)) (JS.of_Z (total r))).
Proof.
  intros H.
  destruct (record_counts st r H) as [HK _].
  apply computeEV_ok_inv in H. destruct H as [_ [_ Hr]].
  assert (HP : probs r = map (fun k => (k, prob_of (counts r) (total r) k)) CATEGORIES)
    by (rewrite Hr; reflexivity).
  rewrite HP, prob_get_map. unfold prob_of, count_of.
  now rewrite (count_get_val _ c HK).
Qed.

(** X20. On a stored EV record [chartData] returns ten bars, one per
    category in the order of [CATEGORIES]; each bar is a percentage between
    0 and 100 that differs from the exact [100 * counts[c] / total] by at
    most 0.0005. *)
Theorem chartData_on_record (st : AppState) (r : EVResult) :
  result (computeEV st) = Some (ResOk r) ->
  exists bars, chartData (computeEV st) = Normal bars
    /\ map name bars = CATEGORIES
    /\ forall d, In d bars ->
         exists q, to_Q (value d) = Some q
           /\ (0 <= q <= 100)%Q
           /\ (Qabs (q - 100 * inject_Z (count_of r (name d)) / inject_Z (total r))
               <= 1 # 2000)%Q.
Proof.
  intros H.
  exists (map (fun cat => mkDatum cat (bar_value (prob_get (probs r) cat))) CATEGORIES).
  split; [| split].
  - unfold chartData. rewrite H. now apply map_throwing_normal.
  - rewrite map_map. apply map_id.
  - intros d Hd. apply in_map_iff in Hd. destruct Hd as [c [<- _]].
    cbn [name value]. rewrite (stored_probs st r c H).
    pose proof (count_in_range st r c H) as Hc.
    destruct (record_counts st r H) as [_ [_ [_ HT]]].
    assert (Hin : In (total r) (Zrange 48 5)) by (apply In_Zrange; lia).
    pose proof bar_table as T. rewrite forallb_forall in T.
    specialize (T _ Hin). unfold bar_check in T. rewrite forallb_forall in T.
    assert (Hn : In (count_of r c) (Zrange 0 (Z.to_nat (total r + 1))))
      by (apply In_Zrange; lia).
    apply T in Hn. unfold bar_within in Hn.
    destruct (to_Q _) as [q |]; [| discriminate].
    rewrite !andb_true_iff, !Qle_bool_iff in Hn.
    exists q. tauto.
Qed.

Lemma chartData_on_record_witness :
  let st := mkState "2c" "2d" "2h" "7s" None in
  exists r bars, result (computeEV st) = Some (ResOk r)
    /\ chartData (computeEV st) = Normal bars
    /\ map name bars = CATEGORIES.
Proof.
  intros st.
  assert (H : result (computeEV st) = Some (ResOk (outcome st))).
  { apply computeEV_ok; [rewrite incomplete_iff; discriminate | distinct]. }
  destruct (chartData_on_record st (outcome st) H) as [bars [Hb [Hn _]]].
  exists (outcome st), bars. auto.
Defined.

(* ------------------------------------------------------------------ *)
(** ** The CSV export *)

(* ------------------------------------------------------------------ *)
(** ** The CSV export *)

Lemma list_ascii_app (a b : string) :
  list_ascii_of_string (a ++ b) = list_ascii_of_string a ++ list_ascii_of_string b.
Proof. induction a as [| c a IH]; simpl; [reflexivity | now rewrite IH]. Qed.

Lemma plain_app (a b : string) : plain (a ++ b) = plain a && plain b.
Proof. unfold plain. now rewrite list_ascii_app, forallb_app. Qed.

Lemma plain_of_list (l : list ascii) :
  plain (string_of_list_ascii l) = forallb plain_char l.
Proof. unfold plain. now rewrite list_ascii_of_string_of_list_ascii. Qed.

Lemma plain_uint (d : Decimal.uint) : plain (NilEmpty.string_of_uint d) = true.
Proof. induction d; simpl; try reflexivity; exact IHd. Qed.

Lemma plain_uint0 (d : Decimal.uint) : plain (NilZero.string_of_uint d) = true.
Proof. destruct d; try reflexivity; apply (plain_uint (_ d)). Qed.

Lemma plain_decimal (n : N) : forallb plain_char (decimal n) = true.
Proof. apply (plain_uint0 (N.to_uint n)). Qed.

Lemma plain_Z_toString (n : Z) : plain (Z_toString n) = true.
Proof.
  unfold Z_toString. destruct (Z.to_int n) as [d | d]; simpl.
  - apply plain_uint0.
  - apply (plain_uint0 d).
Qed.

Lemma forallb_firstn_skipn {A} (p : A -> bool) (n : nat) (l : list A) :
  forallb p l = true ->
  forallb p (firstn n l) = true /\ forallb p (skipn n l) = true.
Proof.
  intros H. rewrite <- (firstn_skipn n l), forallb_app in H.
  now apply andb_true_iff in H.
Qed.

Lemma plain_fixed_digits (n : N) (f : nat) : plain (fixed_digits n f) = true.
Proof.
  unfold fixed_digits. cbv zeta.
  destruct (f =? 0)%nat; [rewrite plain_of_list; apply plain_decimal |].
  rewrite plain_of_list.
  set (m := if (length (decimal n) <=? f)%nat
            then repeat "0"%char (f + 1 - length (decimal n)) ++ decimal n
            else decimal n).
  assert (Hm : forallb plain_char m = true).
  { subst m. destruct (_ <=? _)%nat; [| apply plain_decimal].
    rewrite forallb_app, plain_decimal, andb_true_r.
    apply forallb_forall. intros c Hc. apply repeat_spec in Hc. now subst. }
  rewrite forallb_app. simpl.
  destruct (forallb_firstn_skipn plain_char (length m - f) m Hm) as [-> ->].
  reflexivity.
Qed.

Lemma Z_parse_toString (n : Z) : Z_parse (Z_toString n) = Some n.
Proof.
  unfold Z_parse, Z_toString.
  rewrite NilZero.isi.
  - simpl. now rewrite DecimalZ.of_to.
  - destruct n; simpl; try discriminate.
    intros E. injection E as E. now apply Unsigned.to_uint_nonnil in E.
  - destruct n; simpl; try discriminate.
    intros E. injection E as E. now apply Unsigned.to_uint_nonnil in E.
Qed.

Lemma length_concat_pairs {A B} (f : A -> list B) (l : list A) :
  (forall x, length (f x) = 2%nat) -> length (concat (map f l)) = (2 * length l)%nat.
Proof.
  intros H. induction l as [| x l IH]; simpl; [reflexivity |].
  rewrite length_app, H, IH. lia.
Qed.

Section ExportFacts.

Variable big_toString : JS.number -> string.
Hypothesis big_plain : forall x, plain (big_toString x) = true.

Lemma plain_toFixed (x : JS.number) (f : nat) : plain (toFixed big_toString x f) = true.
Proof.
  destruct x as [s | [|] | | s m e]; simpl; try reflexivity.
  - apply plain_fixed_digits.
  - rewrite plain_app. destruct s, (at_least_1e21 m e); simpl;
      rewrite ?big_plain, ?plain_fixed_digits; reflexivity.
Qed.

(** The fields of the file for a stored record. *)
Lemma downloadCSV_record (st : AppState) (r : EVResult) :
  result st = Some (ResOk r) ->
  (forall c, exists p, prob_get (probs r) c = Some p) ->
  downloadCSV big_toString st
  = Normal (Some (mkDownload "let_it_ride_ev_summary.csv" "text/csv"
      (join newline
         (map csv_line
            (("metric", "value")
             :: ("EV_per_unit", toFixed big_toString (ev r) 6)
             :: flat_map
                  (fun c =>
                     [ (("P_" ++ tag c)%string,
                        toFixed big_toString
                          (match prob_get (probs r) c with
                           | Some p => p
                           | None => S754_nan
                           end) 6);
                       (("Count_" ++ tag c)%string,
                        cell_text (match count_get (counts r) c with
                                   | Some n => CellNumber n
                                   | None => CellUndefined
                                   end)) ])
                  CATEGORIES))%string))).
Proof.
  intros H Hp. unfold downloadCSV. rewrite H. cbn [get_ev].
  rewrite (map_throwing_normal (csv_rows big_toString (ResOk r))
             (fun c =>
                [ [CellString ("P_" ++ tag c);
                   CellString (toFixed big_toString
                                 (match prob_get (probs r) c with
                                  | Some p => p
                                  | None => S754_nan
                                  end) 6)];
                  [CellString ("Count_" ++ tag c);
                   match count_get (counts r) c with
                   | Some n => CellNumber n
                   | None => CellUndefined
                   end] ])).
  - reflexivity.
  - intros c _. unfold csv_rows. cbn [get_probs get_counts].
    destruct (Hp c) as [p ->]. reflexivity.
Qed.

(** X21. The only guard of [downloadCSV] is [!result].  With no result
    stored the function returns without building a file.  Called on a state
    that holds the error object of a rejected request, it passes the guard
    and reads [result.ev.toFixed] on an object without [ev]: a [TypeError].
    This is a fact about the function; the page itself does not get as far
    as offering the click, because the render after a rejected request
    already throws in [chartData]. *)
Theorem downloadCSV_guard (st : AppState) :
  (result st = None -> downloadCSV big_toString st = Normal None)
  /\ (forall msg, result st = Some (ResError msg) ->
      downloadCSV big_toString st = TypeError).
Proof.
  unfold downloadCSV. split.
  - intros ->. reflexivity.
  - intros msg ->. reflexivity.
Qed.

(** X22. On a stored EV record [downloadCSV] hands over the file
    [let_it_ride_ev_summary.csv] with 22 lines of two fields each: the
    header, the EV, and for every category in the order of [CATEGORIES] its
    probability and its count.  No field holds a comma or a line break, and
    each count field reads back as the stored count. *)
Theorem downloadCSV_well_formed (st : AppState) (r : EVResult) :
  result (computeEV st) = Some (ResOk r) ->
  exists d fields,
    downloadCSV big_toString (computeEV st) = Normal (Some d)
    /\ download d = "let_it_ride_ev_summary.csv"%string
    /\ mime d = "text/csv"%string
    /\ text d = join newline (map csv_line fields)
    /\ length fields = 22%nat
    /\ map fst fields
       = "metric"%string :: "EV_per_unit"%string
         :: flat_map (fun c => [("P_" ++ tag c)%string; ("Count_" ++ tag c)%string])
                     CATEGORIES
    /\ Forall (fun kv => plain (fst kv) = true /\ plain (snd kv) = true) fields
    /\ forall c, exists s,
         In (("Count_" ++ tag c)%string, s) fields
         /\ Z_parse s = Some (count_of r c).
Proof.
  intros H.
  destruct (record_counts st r H) as [HK _].
  assert (Hp : forall c, exists p, prob_get (probs r) c = Some p).
  { intros c. rewrite (stored_probs st r c H). eauto. }
  eexists. eexists.
  split; [apply (downloadCSV_record (computeEV st) r H Hp) |].
  cbn [download mime text].
  split; [reflexivity |]. split; [reflexivity |]. split; [reflexivity |].
  split; [reflexivity |]. split; [reflexivity |]. split.
  - repeat (apply Forall_cons;
            [cbn [fst snd]; rewrite ?plain_toFixed;
             try (split; reflexivity) |]).
    all: try (split; [reflexivity |]).
    all: try (rewrite (count_get_val _ _ HK); apply plain_Z_toString).
    apply Forall_nil.
  - intros c. exists (Z_toString (count_of r c)).
    split; [| apply Z_parse_toString].
    right. right. apply in_flat_map. exists c.
    split; [apply CATEGORIES_complete |]. right. left.
    rewrite (count_get_val _ c HK). reflexivity.
Qed.

End ExportFacts.

Lemma downloadCSV_guard_witness :
  let big := fun _ : JS.number => "1e+21"%string in
  let st := computeEV (mkState "Ah" "Ah" "2c" "3d" None) in
  result st = Some (ResError msg_duplicate)
  /\ downloadCSV big st = TypeError
  /\ downloadCSV big initial = Normal None.
Proof.
  intros big st.
  assert (E : result st = Some (ResError msg_duplicate)) by reflexivity.
  split; [exact E |]. split.
  - exact (proj2 (downloadCSV_guard big st) msg_duplicate E).
  - exact (proj1 (downloadCSV_guard big initial) eq_refl).
Defined.

Lemma downloadCSV_well_formed_witness :
  let st := mkState "2c" "2d" "2h" "7s" None in
  let big := fun _ : JS.number => "1e+21"%string in
  (forall x, plain (big x) = true)
  /\ exists r d, result (computeEV st) = Some (ResOk r)
       /\ downloadCSV big (computeEV st) = Normal (Some d)
       /\ download d = "let_it_ride_ev_summary.csv"%string.
Proof.
  intros st big.
  assert (Hb : forall x, plain (big x) = true) by (intros x; reflexivity).
  assert (H : result (computeEV st) = Some (ResOk (outcome st))).
  { apply computeEV_ok; [rewrite incomplete_iff; discriminate | distinct]. }
  split; [exact Hb |].
  destruct (downloadCSV_well_formed big Hb st (outcome st) H)
    as [d [fields [Hd [Hn _]]]].
  exists (outcome st), d. auto.
Defined.

(* ------------------------------------------------------------------ *)
(** ** The intermediate values of [classify5] and of the loop *)

(** X23. The object [counts] that [classify5] fills is the histogram of the
    ranks: a rank that occurs [n > 0] times among the cards is mapped to
    [n], every other key is undefined, and [Object.keys(counts)] lists each
    rank of the hand exactly once. *)
Theorem counts_is_histogram (cards : list string) (k : JS.key) :
  let n := occurrences k (ranks_of cards) in
  JS.get (tally (ranks_of cards)) k
  = (if (0 <? n)%nat then Some (Z.of_nat n) else None)
  /\ (In k (JS.keys (tally (ranks_of cards))) <-> In k (ranks_of cards))
  /\ NoDup (JS.keys (tally (ranks_of cards))).
Proof.
  intros n. subst n.
  pose proof (own_keys_all _ (tally_NoDup (ranks_of cards))) as P.
  split; [| split].
  - rewrite tally_get.
    destruct (JS.includes JS.key_eqb (ranks_of cards) k) eqn:E.
    + apply (includes_In JS.key_eqb key_eqb_spec) in E.
      apply In_occurrences in E. apply Nat.ltb_lt in E. now rewrite E.
    + apply (includes_not_In JS.key_eqb key_eqb_spec) in E.
      destruct (0 <? occurrences k (ranks_of cards))%nat eqn:L; [| reflexivity].
      apply Nat.ltb_lt, occurrences_In in L. contradiction.
  - unfold JS.keys. rewrite <- (tally_in (ranks_of cards) k).
    split; apply Permutation_in; [exact P | exact (Permutation_sym P)].
  - unfold JS.keys. apply (Permutation_NoDup (Permutation_sym P)), tally_NoDup.
Qed.

(** X24. The two sorted arrays of [classify5]: [freqs] holds the
    multiplicity of each distinct rank, largest first, and its entries add
    up to the number of cards; [vals] holds the rank indices of the cards in
    ascending order. *)
Theorem freqs_and_vals (cards : list string) :
  let ranks := ranks_of cards in
  StronglySorted Z.ge (freqs_of ranks)
  /\ Permutation (freqs_of ranks)
       (map (fun d => Z.of_nat (occurrences d ranks)) (JS.mkSet JS.key_eqb ranks))
  /\ fold_right Z.add 0 (freqs_of ranks) = Z.of_nat (length cards)
  /\ StronglySorted Z.le (vals_of ranks)
  /\ Permutation (vals_of ranks) (map rankIndex ranks).
Proof.
  intros ranks.
  assert (P : Permutation (freqs_of ranks)
                (map (fun d => Z.of_nat (occurrences d ranks))
                     (JS.mkSet JS.key_eqb ranks))).
  { unfold freqs_of. eapply perm_trans; [apply sort_perm | apply values_tally]. }
  split; [apply sort_desc_sorted |]. split; [exact P |].
  split; [| split; [apply sort_asc_sorted | apply sort_perm]].
  rewrite (sum_perm _ _ P), sum_of_nats, occurrences_total.
  unfold ranks, ranks_of. now rewrite length_map.
Qed.

(** X25. The counters and the breakdown of a stored record tell the same
    story: [counts[c]] is the number of breakdown rows of category [c], and
    every row holds the category of the four inputs completed by its final
    card, together with that category's payout. *)
Theorem counts_match_breakdown (st : AppState) (r : EVResult) (c : Category) :
  result (computeEV st) = Some (ResOk r) ->
  count_of r c
  = Z.of_nat (length (filter (fun row => Category_eqb (cat row) c) (breakdown r)))
  /\ Forall (fun row =>
               cat row = classify5 (inputs st ++ [finalCard row])
               /\ payout row = PAYTABLE (cat row)) (breakdown r).
Proof.
  intros H. apply computeEV_ok_inv in H. destruct H as [_ [_ ->]].
  unfold count_of, outcome. cbn [counts breakdown]. split.
  - rewrite count_fold by reflexivity.
    rewrite !filter_of_map.
    replace (count_val (map (fun c0 => (c0, 0)) CATEGORIES) c) with 0
      by (destruct c; reflexivity).
    reflexivity.
  - apply Forall_map, Forall_forall. intros x _. split; reflexivity.
Qed.

Lemma counts_match_breakdown_witness :
  let st := mkState "2c" "2d" "2h" "7s" None in
  exists r, result (computeEV st) = Some (ResOk r)
    /\ count_of r full_house
       = Z.of_nat (length (filter (fun row => Category_eqb (cat row) full_house)
                                  (breakdown r))).
Proof.
  intros st.
  assert (H : result (computeEV st) = Some (ResOk (outcome st))).
  { apply computeEV_ok; [rewrite incomplete_iff; discriminate | distinct]. }
  exists (outcome st). split; [exact H |].
  exact (proj1 (counts_match_breakdown st (outcome st) full_house H)).
Defined.
